(** * Sequential Bayesian learning: sequence generator and learners

    A shallow embedding of [seq_gen.py], [sbl_cat_dir.py] and [sbl_grw.py].

    - [Py]     : exceptions, the result monad, numpy-style indexing.
    - [SeqGen] : [seq_gen] (input checks, transition matrices, sampler).
    - [CatDir] : [SBL_Cat_Dir] (Categorical-Dirichlet learner).
    - [GRW]    : [SBL_GRW] (grid filter for the Gaussian random walk).

    Floating-point values that the code compares exactly or divides by
    zero are binary64 floats ([PrimFloat]); the Dirichlet pseudo-counts,
    whose arithmetic is sums, products and quotients of small numbers,
    are rationals ([Q]).  Transcendental and library functions
    ([np.exp], [np.log], [norm.pdf], [kl_dir], [mutual_info_score]) are
    section variables of the learner they belong to. *)

From Stdlib Require Import String.
From Stdlib Require Import ZArith List Bool Lia.
From Stdlib Require Import QArith Qabs Qround Lqa.
From Stdlib Require Import Floats.
Import ListNotations.

Set Warnings "-inexact-float".

(* ================================================================= *)
(** ** Python and numpy conventions *)

Module Py.

(** The exceptions the three files can raise. *)
Inductive exn : Type :=
| IndexError (place : string)
| ValueError (msg : string)
| NameError (name : string)
| UnboundLocalError (name : string)
| Exception (msg : string).

(** A computation returns, raises, or stops because the supply it reads
    from (a recursion budget, the tape of random draws) is used up. *)
Inductive res (A : Type) : Type :=
| Ok (a : A)
| Raise (e : exn)
| Starved.
Arguments Ok {A} a.
Arguments Raise {A} e.
Arguments Starved {A}.

Definition bind {A B} (m : res A) (k : A -> res B) : res B :=
  match m with
  | Ok a => k a
  | Raise e => Raise e
  | Starved => Starved
  end.

Declare Scope py_scope.
Delimit Scope py_scope with py.
Notation "x <- m ;; k" := (bind m (fun x => k))
  (at level 61, m at next level, right associativity) : py_scope.
Notation "m ;;; k" := (bind m (fun _ => k))
  (at level 61, right associativity) : py_scope.

Definition of_option {A} (place : string) (o : option A) : res A :=
  match o with
  | Some a => Ok a
  | None => Raise (IndexError place)
  end.

(** [a[i]] on an axis of length [len]: a negative index counts from the
    end, anything outside [-len, len) is an IndexError. *)
Definition norm_index (len : nat) (i : Z) : option nat :=
  if (0 <=? i)%Z && (i <? Z.of_nat len)%Z then Some (Z.to_nat i)
  else if (- Z.of_nat len <=? i)%Z && (i <? 0)%Z
       then Some (Z.to_nat (i + Z.of_nat len))
       else None.

Definition get {A} (place : string) (l : list A) (i : Z) : res A :=
  match norm_index (length l) i with
  | Some n => of_option place (nth_error l n)
  | None => Raise (IndexError place)
  end.

(** In-place store at a position (no effect beyond the end; callers
    resolve the position with [norm_index] first). *)
Fixpoint upd {A} (n : nat) (x : A) (l : list A) : list A :=
  match l, n with
  | [], _ => []
  | _ :: l', O => x :: l'
  | y :: l', S n' => y :: upd n' x l'
  end.

Definition set {A} (place : string) (l : list A) (i : Z) (x : A)
  : res (list A) :=
  match norm_index (length l) i with
  | Some n => Ok (upd n x l)
  | None => Raise (IndexError place)
  end.

(** [for x in xs: acc = body acc x], stopping at the first exception. *)
Fixpoint for_each {S X} (body : S -> X -> res S) (xs : list X) (s : S)
  : res S :=
  match xs with
  | [] => Ok s
  | x :: xs' => bind (body s x) (for_each body xs')
  end.

(** [[f(x) for x in xs]]. *)
Fixpoint map_res {X Y} (f : X -> res Y) (xs : list X) : res (list Y) :=
  match xs with
  | [] => Ok []
  | x :: xs' =>
      bind (f x) (fun y => bind (map_res f xs') (fun ys => Ok (y :: ys)))
  end.

(** [range(a, b)] for naturals. *)
Definition range (a b : nat) : list nat := seq a (b - a).

End Py.

(* ================================================================= *)
(** ** [seq_gen.py]: the regime-switching sequence generator *)

Module SeqGen.
Import Py.
Local Open Scope py_scope.
Local Open Scope Z_scope.

(** The constructor's arguments.  [prob_regime_change] and [prob_catch]
    are floats here, so the constructor's [type(x) != float] tests are
    settled by typing. *)
Record config : Type := {
  order : nat;
  prob_catch : float;
  prob_regime_init : list float;
  prob_regime_change : float;
  prob_obs_init : list float;
  prob_obs_change : list float
}.

Definition obs_space : nat := 2.
Definition regime_space : nat := 2.

(** [self.obs_space**self.order], the number of rows of each matrix. *)
Definition n_contexts (c : config) : nat := Nat.pow obs_space (order c).

(** [x > 1 or x < 0] on binary64 (false on NaN, as in Python). *)
Definition outside_unit (x : float) : bool :=
  (PrimFloat.ltb 1 x || PrimFloat.ltb x 0)%bool.

Definition check_input_dim (c : config) : res unit :=
  if negb (Nat.eqb (length (prob_regime_init c)) regime_space) then
    Raise (ValueError "Initial regime prob vector has wrong dim")
  else if negb (Z.eqb (Z.of_nat (length (prob_obs_init c)) - 1)
                      (Z.of_nat obs_space)) then
    Raise (ValueError "Initial obs prob vector has wrong dim")
  else if outside_unit (prob_regime_change c) then
    Raise (ValueError "Regime change prob has to be a float between 0 and 1")
  else if outside_unit (prob_catch c) then
    Raise (ValueError "Catch probability has to be a float between 0 and 1")
  else if negb (Nat.eqb (length (prob_obs_change c))
                        (2 * n_contexts c)) then
    Raise (ValueError "Need to specify probs for emissions")
  else Ok tt.

(** One row [P(next=0), P(next=1), P(catch), P(regime switch)], with
    Python's left-to-right subtraction. *)
Definition transition_row (p c r : float) : list float :=
  [ (p - c / 2 - r / 2)%float;
    (1 - p - c / 2 - r / 2)%float;
    c;
    r ].

(** [np.sum] of one row: four additions from zero. *)
Definition np_sum (row : list float) : float :=
  fold_left PrimFloat.add row 0%float.

(** The first loop of [construct_transitions]: rows of [B_0] and [B_1]. *)
Definition build_rows (c : config)
  : res (list (list float) * list (list float)) :=
  let n := n_contexts c in
  for_each
    (fun (B : list (list float) * list (list float)) (i : nat) =>
       p0 <- get "prob_obs_change" (prob_obs_change c) (Z.of_nat i) ;;
       p1 <- get "prob_obs_change" (prob_obs_change c) (Z.of_nat (i + n)) ;;
       Ok (fst B ++ [transition_row p0 (prob_catch c) (prob_regime_change c)],
           snd B ++ [transition_row p1 (prob_catch c) (prob_regime_change c)]))
    (range 0 n) ([], []).

(** [np.sum(B_0[row, :]) != 1 or np.sum(B_1[row, :]) != 1]. *)
Definition row_pair_bad (rows : list float * list float) : bool :=
  (negb (PrimFloat.eqb (np_sum (fst rows)) 1)
   || negb (PrimFloat.eqb (np_sum (snd rows)) 1))%bool.

Definition construct_transitions (c : config)
  : res (list (list float) * list (list float)) :=
  B <- build_rows c ;;
  if existsb row_pair_bad (combine (fst B) (snd B))
  then Raise (ValueError "Matrices are not row stochastic")
  else Ok B.

Record generator : Type := {
  gen_config : config;
  transition_matrices : list (list float) * list (list float)
}.

(** [seq_gen.__init__]. *)
Definition init (c : config) : res generator :=
  check_input_dim c ;;;
  B <- construct_transitions c ;;
  Ok {| gen_config := c; transition_matrices := B |}.

(** A row sum is within 1e-9 of one. *)
Definition within_tol (s : float) : bool :=
  PrimFloat.leb (PrimFloat.abs (s - 1)%float) 1e-9%float.

(** *** The sampler

    The array [Q] of [sample] holds one [(regime, observation)] pair of
    integers per trial.  Randomness is a tape: the two seeding draws and
    the categories drawn from transition rows, in the order the code
    draws them. *)

Definition trials : Type := list (Z * Z).

(** [Q[t, 0]] and [Q[t, 1]]. *)
Definition regime_at (Qm : trials) (t : Z) : res Z :=
  r <- get "Q" Qm t ;; Ok (fst r).
Definition obs_at (Qm : trials) (t : Z) : res Z :=
  r <- get "Q" Qm t ;; Ok (snd r).

(** [Q[t, 1] = v] and [Q[t, 0] = v]. *)
Definition set_obs (Qm : trials) (t : Z) (v : Z) : res trials :=
  r <- get "Q" Qm t ;; set "Q" Qm t (fst r, v).
Definition set_regime (Qm : trials) (t : Z) (v : Z) : res trials :=
  r <- get "Q" Qm t ;; set "Q" Qm t (v, snd r).

(** Short-circuit [and] / [or] of two tests that may raise. *)
Definition and_then (a b : res bool) : res bool :=
  x <- a ;; if x then b else Ok false.
Definition or_else (a b : res bool) : res bool :=
  x <- a ;; if x then Ok true else b.

Definition obs_is (Qm : trials) (t v : Z) : res bool :=
  o <- obs_at Qm t ;; Ok (o =? v).

(** [while cond(counter): counter -= 1]. *)
Fixpoint scan_back (fuel : nat) (cond : Z -> res bool) (counter : Z)
  : res Z :=
  match fuel with
  | O => Starved
  | S fuel' =>
      b <- cond counter ;;
      if b then scan_back fuel' cond (counter - 1) else Ok counter
  end.

Section Lookback.

(** [get_sample_idx] reads a global name [s2] that [seq_gen.py] does not
    define (it can only come from [from seq_analysis import *]):
    [None] when the name is unbound. *)
Variable s2 : option Z.

Definition read_s2 : res Z :=
  match s2 with
  | Some v => Ok v
  | None => Raise (NameError "s2")
  end.

(** [get_sample_idx(Q, t_1, t_2)]; [idx] is unbound until a branch
    assigns it. *)
Fixpoint get_sample_idx (fuel : nat) (ord : nat) (Qm : trials)
    (t_1 t_2 : Z) : res Z :=
  match fuel with
  | O => Starved
  | S fuel' =>
      idx1 <-
        (if Nat.eqb ord 1 then
           is0 <- obs_is Qm t_1 0 ;;
           let idx := if is0 then Some 0 else None in
           is1 <- obs_is Qm t_1 1 ;;
           if is1 then Ok (Some 1)
           else
             is2 <- obs_is Qm t_1 2 ;;
             if is2 then
               counter <- scan_back fuel'
                 (fun c => o <- obs_at Qm c ;; v <- read_s2 ;; Ok (o =? v))
                 (t_1 - 1) ;;
               i <- get_sample_idx fuel' ord Qm counter (counter - 1) ;;
               Ok (Some i)
             else Ok idx
         else Ok None) ;;
      idx2 <-
        (if Nat.eqb ord 2 then
           c00 <- and_then (obs_is Qm t_1 0) (obs_is Qm t_2 0) ;;
           if c00 then Ok (Some 0) else
           c01 <- and_then (obs_is Qm t_1 0) (obs_is Qm t_2 1) ;;
           if c01 then Ok (Some 1) else
           c10 <- and_then (obs_is Qm t_1 1) (obs_is Qm t_2 0) ;;
           if c10 then Ok (Some 2) else
           c11 <- and_then (obs_is Qm t_1 1) (obs_is Qm t_2 1) ;;
           if c11 then Ok (Some 3) else
           c1 <- obs_is Qm t_1 2 ;;
           if c1 then
             counter <- scan_back fuel'
               (fun c => or_else (obs_is Qm c 2) (obs_is Qm (c - 1) 2))
               (t_1 - 1) ;;
             i <- get_sample_idx fuel' ord Qm counter (counter - 1) ;;
             Ok (Some i)
           else
             c2 <- obs_is Qm t_2 2 ;;
             if c2 then
               counter <- scan_back fuel'
                 (fun c => obs_is Qm c 2) (t_2 - 1) ;;
               i <- get_sample_idx fuel' ord Qm t_1 counter ;;
               Ok (Some i)
             else Ok idx1
         else Ok idx1) ;;
      match idx2 with
      | Some i => Ok i
      | None => Raise (UnboundLocalError "idx")
      end
  end.

(** The category drawn from a transition row: [argmax] of a one-trial
    multinomial over [P(0), P(1), P(catch), P(switch)]. *)
Inductive category : Type := Next0 | Next1 | NextCatch | NextSwitch.

Definition category_index (c : category) : Z :=
  match c with
  | Next0 => 0 | Next1 => 1 | NextCatch => 2 | NextSwitch => 3
  end.

(** The regime seed ([argmax] over two entries) and the observation seed
    ([argmax] over three). *)
Inductive seed2 : Type := Seed2_0 | Seed2_1.
Inductive seed3 : Type := Seed3_0 | Seed3_1 | Seed3_2.

Definition seed2_index (s : seed2) : Z :=
  match s with Seed2_0 => 0 | Seed2_1 => 1 end.
Definition seed3_index (s : seed3) : Z :=
  match s with Seed3_0 => 0 | Seed3_1 => 1 | Seed3_2 => 2 end.

Record tape : Type := {
  regime_seed : seed2;
  obs_seed : seed3;
  draws : list category
}.

(** One entry per draw from a transition row: the trial, the regime whose
    matrix was used and the row (context index) drawn from. *)
Record draw_event : Type := {
  ev_t : Z;
  ev_regime : Z;
  ev_idx : Z
}.

Record sampler : Type := {
  Qarr : trials;
  act_regime : Z;
  rest : list category;
  events : list draw_event
}.

(** [self.transition_matrices[act_regime][idx, :]] exists. *)
Definition row_exists (ord : nat) (act idx : Z) : res unit :=
  match norm_index 2 act, norm_index (Nat.pow obs_space ord) idx with
  | Some _, Some _ => Ok tt
  | _, _ => Raise (IndexError "transition_matrices")
  end.

(** [idx = self.get_sample_idx(Q, t-1, t-2)] followed by
    [Q[t, 1] = np.random.multinomial(1, row).argmax()]. *)
Definition draw_obs (fuel ord : nat) (t : Z) (s : sampler) : res sampler :=
  idx <- get_sample_idx fuel ord (Qarr s) (t - 1) (t - 2) ;;
  row_exists ord (act_regime s) idx ;;;
  match rest s with
  | [] => Starved
  | d :: ds =>
      Qm <- set_obs (Qarr s) t (category_index d) ;;
      Ok {| Qarr := Qm; act_regime := act_regime s; rest := ds;
            events := events s ++
              [{| ev_t := t; ev_regime := act_regime s; ev_idx := idx |}] |}
  end.

Definition flip_regime (act : Z) : Z :=
  if act =? 0 then 1 else if act =? 1 then 0 else act.

(** [while Q[t, 1] == 3: ...]: each turn consumes one draw. *)
Fixpoint resample (fuel ord : nat) (t : Z) (ds : list category)
    (Qm : trials) (act : Z) (evs : list draw_event) : res sampler :=
  o <- obs_at Qm t ;;
  if o =? 3 then
    let act' := flip_regime act in
    idx <- get_sample_idx fuel ord Qm (t - 1) (t - 2) ;;
    row_exists ord act' idx ;;;
    match ds with
    | [] => Starved
    | d :: ds' =>
        Qm' <- set_obs Qm t (category_index d) ;;
        resample fuel ord t ds' Qm' act'
          (evs ++ [{| ev_t := t; ev_regime := act'; ev_idx := idx |}])
    end
  else Ok {| Qarr := Qm; act_regime := act; rest := ds; events := evs |}.

(** The body of [for t in range(self.order, seq_length)]. *)
Definition step (fuel ord : nat) (s : sampler) (tn : nat) : res sampler :=
  let t := Z.of_nat tn in
  prev <- obs_at (Qarr s) (t - 1) ;;
  s1 <- (if negb (prev =? 2) then draw_obs fuel ord t s else Ok s) ;;
  s2' <- resample fuel ord t (rest s1) (Qarr s1) (act_regime s1)
           (events s1) ;;
  Qm <- set_regime (Qarr s2') t (act_regime s2') ;;
  Ok {| Qarr := Qm; act_regime := act_regime s2'; rest := rest s2';
        events := events s2' |}.

(** [Q[0:order, 0] = r] and [Q[0:order, 1] = o] on the zero array. *)
Definition seeded (ord seq_length : nat) (r o : Z) : trials :=
  repeat (r, o) (Nat.min ord seq_length)
  ++ repeat (0, 0) (seq_length - ord).

(** A recursion budget no lookback can use up: every turn of a scan and
    every recursive call lowers an index that stays inside the array. *)
Definition lookback_fuel (seq_length : nat) : nat := 4 * seq_length + 4.

(** The integer array at the end of the loop of [sample]. *)
Definition sample_loop (ord seq_length : nat) (tp : tape) : res sampler :=
  let Q0 := seeded ord seq_length (seed2_index (regime_seed tp))
                   (seed3_index (obs_seed tp)) in
  act <- regime_at Q0 1 ;;
  for_each (step (lookback_fuel seq_length) ord)
    (range ord seq_length)
    {| Qarr := Q0; act_regime := act; rest := draws tp; events := [] |}.

(** [Q[Q[:, 1] == 2, 0] = 2], [Q.astype(float)], [Q[Q[:, 1] == 2, 1] = 0.5]
    and the leading column [np.arange(seq_length)].  The floats of the
    result are integers or one half: rationals hold them exactly. *)
Definition mark_catch (r : Z * Z) : Z * Z :=
  if snd r =? 2 then (2, snd r) else r.

Definition to_float_row (r : Z * Z) : Q * Q :=
  (inject_Z (fst r), if snd r =? 2 then (1 # 2)%Q else inject_Z (snd r)).

Definition finish (Qm : trials) : list (Q * Q * Q) :=
  map (fun tr : nat * (Q * Q) =>
         (inject_Z (Z.of_nat (fst tr)), fst (snd tr), snd (snd tr)))
      (combine (seq 0 (length Qm)) (map to_float_row (map mark_catch Qm))).

(** [sample(seq_length)]: the returned [(t, hidden, observation)] array. *)
Definition sample (ord seq_length : nat) (tp : tape)
  : res (list (Q * Q * Q)) :=
  s <- sample_loop ord seq_length tp ;;
  Ok (finish (Qarr s)).

(** [save]: [sequence[sequence[:, 2] == 0.5, 2] = 2]. *)
Definition save_recode (rows : list (Q * Q * Q)) : list (Q * Q * Q) :=
  map (fun r : Q * Q * Q =>
         if Qeq_bool (snd r) (1 # 2) then (fst r, 2%Q) else r) rows.

End Lookback.

End SeqGen.

(* ================================================================= *)
(** ** [sbl_cat_dir.py]: the Categorical-Dirichlet learner *)

Module CatDir.
Import Py.
Local Open Scope py_scope.
Local Open Scope Q_scope.

(** [self.alphas]: a vector (SP, AP) or a matrix (TP). *)
Inductive alphas_t : Type :=
| Vec (v : list Q)
| Mat (m : list (list Q)).

(** An index into it: an integer (SP, AP) or a [(from, to)] pair (TP). *)
Inductive index : Type :=
| Idx1 (i : Z)
| Idx2 (i j : Z).

(** The learner object.  [sequence] is [seq.astype(int)]; the
    observation column holds the categories as integer-valued floats,
    so the cast is the identity and [seq] is a list of integers here. *)
Record learner : Type := {
  sequence : list Z;
  hidden : list Q;
  T : nat;
  type : string;
  tau : Q;
  verbose : bool;
  no_obs : nat;
  stim_ind : list (list Q);
  repetition : list Q;
  transitions : list (list Q);
  exp_forgetting : list Q;
  alphas : alphas_t;
  t : nat;
  stdout : list string
}.

Definition zeros (n : nat) : list Q := repeat 0 n.
Definition zeros2 (r c : nat) : list (list Q) := repeat (zeros c) r.
Definition ones (n : nat) : list Q := repeat 1 n.
Definition ones2 (r c : nat) : list (list Q) := repeat (ones c) r.

(** [M[i, j] = x]. *)
Definition set2 (place : string) (M : list (list Q)) (i j : Z) (x : Q)
  : res (list (list Q)) :=
  row <- get place M i ;;
  row' <- set place row j x ;;
  set place M i row'.

(** [M[i, j]]. *)
Definition get2 (place : string) (M : list (list Q)) (i j : Z) : res Q :=
  row <- get place M i ;; get place row j.

(** [np.unique(seq).shape[0]]. *)
Definition n_unique (seq : list Z) : nat := length (nodup Z.eq_dec seq).

Definition of_bool (b : bool) : Q := if b then 1 else 0.

(** [for t in range(self.T): self.stim_ind[t, self.sequence[t]] = 1]. *)
Definition build_stim_ind (sequence : list Z) (no_obs : nat)
  : res (list (list Q)) :=
  for_each
    (fun M (tn : nat) =>
       o <- get "sequence" sequence (Z.of_nat tn) ;;
       set2 "stim_ind" M (Z.of_nat tn) o 1)
    (range 0 (length sequence))
    (zeros2 (length sequence) no_obs).

(** [self.repetition]: one where [sequence[t] == sequence[t-1]], [t >= 1]. *)
Definition build_repetition (sequence : list Z) : res (list Q) :=
  for_each
    (fun (r : list Q) (tn : nat) =>
       a <- get "sequence" sequence (Z.of_nat tn) ;;
       b <- get "sequence" sequence (Z.of_nat tn - 1) ;;
       if (a =? b)%Z then set "repetition" r (Z.of_nat tn) 1 else Ok r)
    (range 1 (length sequence))
    (zeros (length sequence)).

(** [self.transitions]: columns 0, 1 and 2 are written, whatever
    [no_obs] is. *)
Definition build_transitions (sequence : list Z) (no_obs : nat)
  : res (list (list Q)) :=
  for_each
    (fun M (tn : nat) =>
       p <- get "sequence" sequence (Z.of_nat tn - 1) ;;
       M0 <- set2 "transitions" M (Z.of_nat tn) 0 (of_bool (p =? 0)%Z) ;;
       M1 <- set2 "transitions" M0 (Z.of_nat tn) 1 (of_bool (p =? 1)%Z) ;;
       set2 "transitions" M1 (Z.of_nat tn) 2 (of_bool (p =? 2)%Z))
    (range 1 (length sequence))
    (zeros2 (length sequence) no_obs).

Section Learner.

(** [np.exp], [np.log] and [helpers.kl_dir]. *)
Variable np_exp : Q -> Q.
Variable np_log : Q -> Q.
Variable kl_dir : alphas_t -> alphas_t -> Q.

(** [np.exp(-self.tau*np.arange(self.T)[::-1])]. *)
Definition forgetting (tau : Q) (T : nat) : list Q :=
  map (fun k : nat => np_exp (- tau * inject_Z (Z.of_nat k)))
      (rev (seq 0 T)).

(** [SBL_Cat_Dir.__init__]. *)
Definition init (seq : list Z) (hidden : list Q) (tau : Q)
    (model_type : string) (verbose : bool) : res learner :=
  let T := length seq in
  let no_obs := n_unique seq in
  stim <- build_stim_ind seq no_obs ;;
  rep <- build_repetition seq ;;
  trans <- build_transitions seq no_obs ;;
  a <- (if String.eqb model_type "SP" then Ok (Vec (ones no_obs))
        else if String.eqb model_type "AP" then Ok (Vec (ones 2))
        else if String.eqb model_type "TP" then Ok (Mat (ones2 no_obs no_obs))
        else Raise (Exception "Provide right model type (SP, AP, TP)")) ;;
  Ok {| sequence := seq; hidden := hidden; T := T; type := model_type;
        tau := tau; verbose := verbose; no_obs := no_obs;
        stim_ind := stim; repetition := rep; transitions := trans;
        exp_forgetting := forgetting tau T; alphas := a; t := 0;
        stdout := [] |}.

(** [a[-n:]] for [n >= 1] and [a[:n]]. *)
Definition last_n {A} (n : nat) (l : list A) : list A :=
  skipn (length l - n) l.
Definition first_n {A} (n : nat) (l : list A) : list A := firstn n l.

(** Column [i] of a table: [M[:, i]]. *)
Definition column (M : list (list Q)) (i : nat) : list Q :=
  map (fun row => nth i row 0) M.

Definition qsum (l : list Q) : Q := fold_right Qplus 0 l.

(** [np.dot] of two vectors (here always of the same length). *)
Definition dot (a b : list Q) : Q :=
  qsum (map (fun p : Q * Q => fst p * snd p) (combine a b)).

(** Elementwise [a * b] and [1 - a]. *)
Definition times (a b : list Q) : list Q :=
  map (fun p : Q * Q => fst p * snd p) (combine a b).
Definition one_minus (a : list Q) : list Q := map (fun x => 1 - x) a.

Definition warning : string :=
  "Can't update posterior with only one observation - need two!".

Definition with_alphas (L : learner) (a : alphas_t) (out : list string)
  : learner :=
  {| sequence := sequence L; hidden := hidden L; T := T L; type := type L;
     tau := tau L; verbose := verbose L; no_obs := no_obs L;
     stim_ind := stim_ind L; repetition := repetition L;
     transitions := transitions L; exp_forgetting := exp_forgetting L;
     alphas := a; t := t L; stdout := stdout L ++ out |}.

Definition with_t (L : learner) (tn : nat) : learner :=
  {| sequence := sequence L; hidden := hidden L; T := T L; type := type L;
     tau := tau L; verbose := verbose L; no_obs := no_obs L;
     stim_ind := stim_ind L; repetition := repetition L;
     transitions := transitions L; exp_forgetting := exp_forgetting L;
     alphas := alphas L; t := tn; stdout := stdout L |}.

(** [update_posterior], at [self.t]. *)
Definition update_posterior (L : learner) : learner :=
  let n := S (t L) in
  let exp_weighting := last_n n (exp_forgetting L) in
  if String.eqb (type L) "SP" then
    with_alphas L
      (Vec (map (fun i =>
                   1 + dot exp_weighting (column (first_n n (stim_ind L)) i))
                (range 0 (no_obs L)))) []
  else if String.eqb (type L) "AP" then
    if Nat.eqb (t L) 0 then
      with_alphas L (Vec [1; 1]) [warning]
    else
      with_alphas L
        (Vec [ 1 + dot exp_weighting (first_n n (repetition L));
               1 + dot exp_weighting (one_minus (first_n n (repetition L))) ])
        []
  else if String.eqb (type L) "TP" then
    if Nat.eqb (t L) 0 then
      with_alphas L (Mat (ones2 (no_obs L) (no_obs L))) [warning]
    else
      with_alphas L
        (Mat (map (fun i =>
                map (fun j =>
                       1 + dot exp_weighting
                             (times (column (first_n n (stim_ind L)) j)
                                    (column (first_n n (transitions L)) i)))
                    (range 0 (no_obs L)))
                (range 0 (no_obs L)))) []
  else L.

(** [a.sum(axis=0)]: the total of a vector, the column totals of a
    matrix. *)
Definition col_sums (m : list (list Q)) : list Q :=
  match m with
  | [] => []
  | row :: _ => map (fun j => qsum (column m j)) (range 0 (length row))
  end.

Definition div_rows (row sums : list Q) : list Q :=
  map (fun p : Q * Q => fst p / snd p) (combine row sums).

(** [np.array([alpha/a.sum(axis=0) for alpha in a])] and
    [a/a.sum(axis=0)]: every entry over the total along axis 0. *)
Definition over_axis0 (a : alphas_t) : alphas_t :=
  match a with
  | Vec v => Vec (map (fun x => x / qsum v) v)
  | Mat m => Mat (map (fun row => div_rows row (col_sums m)) m)
  end.

(** [posterior_predictive(alphas)]: the argument is ignored, the method
    reads [self.alphas]. *)
Definition posterior_predictive (L : learner) (_ : alphas_t) : alphas_t :=
  over_axis0 (alphas L).

Definition naive_posterior (L : learner) (a : alphas_t) : alphas_t :=
  over_axis0 (posterior_predictive L a).

(** [a[ind]] where it yields a number. *)
Definition at_index (a : alphas_t) (ind : index) : res Q :=
  match a, ind with
  | Vec v, Idx1 i => get "alphas" v i
  | Mat m, Idx2 i j => get2 "alphas" m i j
  | _, _ => Raise (IndexError "alphas")
  end.

Definition predictive_surprisal (L : learner) (a : alphas_t) (ind : index)
  : res Q :=
  p <- at_index (posterior_predictive L a) ind ;;
  Ok (- np_log p).

Definition bayesian_surprisal (alphas_old a : alphas_t) : Q :=
  kl_dir alphas_old a.

Definition corrected_surprisal (L : learner) (a : alphas_t) : Q :=
  kl_dir (naive_posterior L a) a.

(** [np.argmax]: the first position of the largest entry. *)
Fixpoint argmax_from (best : Q) (besti next : nat) (l : list Q) : nat :=
  match l with
  | [] => besti
  | x :: l' =>
      if Qle_bool x best then argmax_from best besti (S next) l'
      else argmax_from x next (S next) l'
  end.

Definition argmax (l : list Q) : nat :=
  match l with
  | [] => O
  | x :: l' => argmax_from x O 1 l'
  end.

(** [int(x)]: truncation towards zero. *)
Definition int_of (x : Q) : Z :=
  if Qle_bool 0 x then Qfloor x else Qceiling x.

(** One line of the table [compute_surprisal] returns:
    [[t, o_t, s_t, PS, BS, CS] + list(alphas.reshape(1, -1)[0])]. *)
Record record : Type := {
  r_t : nat;
  r_obs : Z;
  r_hidden : Q;
  r_PS : Q;
  r_BS : Q;
  r_CS : Q;
  r_params : list Q
}.

Definition flatten (a : alphas_t) : list Q :=
  match a with
  | Vec v => v
  | Mat m => concat m
  end.

(** The realized outcome index of trial [t]. *)
Definition outcome_index (L : learner) : res index :=
  let tz := Z.of_nat (t L) in
  if String.eqb (type L) "SP" then
    o <- get "sequence" (sequence L) tz ;; Ok (Idx1 o)
  else if String.eqb (type L) "AP" then
    r <- get "repetition" (repetition L) tz ;; Ok (Idx1 (int_of r))
  else if String.eqb (type L) "TP" then
    from <- get "transitions" (transitions L) tz ;;
    to <- get "stim_ind" (stim_ind L) tz ;;
    Ok (Idx2 (Z.of_nat (argmax from)) (Z.of_nat (argmax to)))
  else Raise (Exception "Provide right model type (SP, AP, TP)").

(** The body of the loop of [compute_surprisal]. *)
Definition compute_step (acc : learner * list record) (tn : nat)
  : res (learner * list record) :=
  let L := fst acc in
  let alphas_old := alphas L in
  let L1 := update_posterior (with_t L tn) in
  ind <- outcome_index L1 ;;
  PS_temp <- predictive_surprisal L1 (alphas L1) ind ;;
  let BS_temp := bayesian_surprisal alphas_old (alphas L1) in
  let CS_temp := corrected_surprisal L1 (alphas L1) in
  o <- get "sequence" (sequence L1) (Z.of_nat tn) ;;
  h <- get "hidden" (hidden L1) (Z.of_nat tn) ;;
  Ok (L1, snd acc ++
          [{| r_t := tn; r_obs := o; r_hidden := h; r_PS := PS_temp;
              r_BS := BS_temp; r_CS := CS_temp;
              r_params := flatten (alphas L1) |}]).

Definition banner_start : string :=
  "Computing different surprisal measures.".
Definition banner_done : string :=
  "Done computing surprisal measures for all timesteps.".

(** [compute_surprisal(max_T)]. *)
Definition compute_surprisal (L : learner) (max_T : nat)
  : res (learner * list record) :=
  r <- for_each compute_step (range 0 max_T)
         (with_alphas L (alphas L) [banner_start], []) ;;
  Ok (with_alphas (fst r) (alphas (fst r)) [banner_done], snd r).

End Learner.

End CatDir.

(* ================================================================= *)
(** ** [sbl_grw.py]: the grid filter for the Gaussian random walk *)

Module GRW.
Import Py.
Local Open Scope py_scope.
Local Open Scope float_scope.

Definition of_nat (k : nat) : float :=
  PrimFloat.of_uint63 (Uint63.of_Z (Z.of_nat k)).

(** [np.linspace(start, stop, num)]: [arange(num)*step + start] with the
    last point set to [stop]. *)
Definition linspace (start stop : float) (num : nat) : list float :=
  let step := (stop - start) / of_nat (num - 1) in
  match num with
  | O => []
  | S O => [start]
  | S n =>
      map (fun k => of_nat k * step + start) (seq 0 n) ++ [stop]
  end.

(** [np.repeat(a, n)] and [np.tile(a, n)]. *)
Definition np_repeat {A} (a : list A) (n : nat) : list A :=
  flat_map (fun x => repeat x n) a.
Definition np_tile {A} (a : list A) (n : nat) : list A :=
  concat (repeat a n).

(** [a.reshape((n, n))]. *)
Fixpoint chunks {A} (rows n : nat) (l : list A) : list (list A) :=
  match rows with
  | O => []
  | S r => firstn n l :: chunks r n (skipn n l)
  end.

Definition reshape {A} (n : nat) (l : list A) : res (list (list A)) :=
  if Nat.eqb (length l) (n * n) then Ok (chunks n n l)
  else Raise (ValueError "cannot reshape array").

Definition table2 : Type := list (list float).
Definition table3 : Type := list table2.

Definition zeros (n : nat) : list float := repeat 0 n.
Definition zeros2 (r c : nat) : table2 := repeat (zeros c) r.
Definition zeros3 (k r c : nat) : table3 := repeat (zeros2 r c) k.

(** The learner object.  [P] is kept as one [P[:, :, :, t]] slice per
    trial; [sequence] and [repetition] index the category axis. *)
Record learner : Type := {
  sequence : list Z;
  hidden : list Z;
  T : nat;
  no_obs : nat;
  sigma : float;
  s_res : nat;
  s_space : list float;
  repetition : list Z;
  posterior : list float;
  posterior_naive : list float;
  P : list table3;
  P_naive : table3;
  predictive : float
}.

(** [self.repetition], as in the Dirichlet learner, cast to integers. *)
Definition build_repetition (sequence : list Z) : res (list Z) :=
  for_each
    (fun (r : list Z) (tn : nat) =>
       a <- get "sequence" sequence (Z.of_nat tn) ;;
       b <- get "sequence" sequence (Z.of_nat tn - 1) ;;
       if Z.eqb a b then set "repetition" r (Z.of_nat tn) 1%Z else Ok r)
    (range 1 (length sequence))
    (repeat 0%Z (length sequence)).

(** [SBL_GRW.__init__(seq, sigma, s_min, s_max, s_res)]; a row of [seq]
    is [(hidden, observation)]. *)
Definition init (seq : list (Z * Z)) (sigma s_min s_max : float)
    (s_res : nat) : res learner :=
  let sequence := map snd seq in
  let T := length seq in
  rep <- build_repetition sequence ;;
  Ok {| sequence := sequence; hidden := map fst seq; T := T; no_obs := 2;
        sigma := sigma; s_res := s_res;
        s_space := linspace s_min s_max s_res;
        repetition := rep;
        posterior := repeat (1 / of_nat s_res) s_res;
        posterior_naive := zeros s_res;
        P := repeat (zeros3 2 s_res s_res) T;
        P_naive := zeros3 2 s_res s_res;
        predictive := 0 |}.

Section Filter.

(** [scipy.stats.norm.pdf(x, loc, scale)], [np.exp],
    [scipy.stats.binom.pmf(1, 1, p)], [np.log],
    [sklearn.metrics.mutual_info_score] and [np.sum] over a vector
    (whose order of additions numpy does not fix). *)
Variable norm_pdf : float -> float -> float -> float.
Variable np_exp : float -> float.
Variable binom_pmf_1_1 : float -> float.
Variable np_log : float -> float.
Variable mutual_info_score : list float -> list float -> float.
Variable np_sum : list float -> float.

(** The grid written into [update_posterior]. *)
Definition grid : list float := linspace (-5) 5 70.
Definition i_ax : list float := np_repeat grid 70.
Definition j_ax : list float := np_tile grid 70.

Definition logistic (x : float) : float := 1 / (1 + np_exp (- x)).

Definition normal_lookup (L : learner) : res table2 :=
  reshape (s_res L)
    (map (fun p : float * float => norm_pdf (fst p) (snd p) (sigma L))
         (combine i_ax j_ax)).

Definition bernoulli_lookup : list float :=
  map (fun x => binom_pmf_1_1 (logistic x)) i_ax.

Definition get2 (place : string) (M : table2) (i j : Z) : res float :=
  row <- get place M i ;; get place row j.

(** The double loop: [P[0, i, j, t]] and [P[1, i, j, t]] for all [i],
    [j]. *)
Definition joint_slice (L : learner) (normal : table2) : res table3 :=
  let cell (k : nat) (i j : nat) : res float :=
    b <- get "bernoulli_lookup" bernoulli_lookup (Z.of_nat i) ;;
    n <- get2 "normal_lookup" normal (Z.of_nat i) (Z.of_nat j) ;;
    p <- get "posterior" (posterior L) (Z.of_nat j) ;;
    Ok (match k with
        | O => (1 - b) * n * p
        | _ => b * n * p
        end) in
  map_res (fun k =>
    map_res (fun i =>
      map_res (fun j => cell k i j) (range 0 (s_res L)))
      (range 0 (s_res L)))
    (range 0 2).

(** Sums along the axes the code uses. *)
Definition sum_rows (M : table2) : list float := map np_sum M.

Definition column (M : table2) (j : nat) : list float :=
  map (fun row => nth j row 0) M.

Definition add_tables (A B : table2) : table2 :=
  map (fun r : list float * list float =>
         map (fun p : float * float => fst p + snd p)
             (combine (fst r) (snd r)))
      (combine A B).

(** [np.sum(np.sum(np.sum(P[:, :, :, t], 0), 0), 0)]. *)
Definition sum_kij (n : nat) (S : table3) : float :=
  let over_k := fold_left add_tables S (zeros2 n n) in
  np_sum (map (fun j => np_sum (column over_k j)) (range 0 n)).

Definition divide (v : list float) (d : float) : list float :=
  map (fun x => x / d) v.

Definition with_tables (L : learner) (Pt : list table3) (Pn : table3)
  : learner :=
  {| sequence := sequence L; hidden := hidden L; T := T L;
     no_obs := no_obs L; sigma := sigma L; s_res := s_res L;
     s_space := s_space L; repetition := repetition L;
     posterior := posterior L; posterior_naive := posterior_naive L;
     P := Pt; P_naive := Pn; predictive := predictive L |}.

Definition with_posteriors (L : learner) (post naive : list float)
    (pred : float) : learner :=
  {| sequence := sequence L; hidden := hidden L; T := T L;
     no_obs := no_obs L; sigma := sigma L; s_res := s_res L;
     s_space := s_space L; repetition := repetition L;
     posterior := post; posterior_naive := naive;
     P := P L; P_naive := P_naive L; predictive := pred |}.

(** [update_posterior(t, type)]: the new learner and [posterior_lag]. *)
Definition update_posterior (L : learner) (tn : nat) (type : string)
  : res (learner * list float) :=
  normal <- normal_lookup L ;;
  slice <- joint_slice L normal ;;
  Pt <- set "P" (P L) (Z.of_nat tn) slice ;;
  let L1 := with_tables L Pt (if Nat.eqb tn 0 then slice else P_naive L) in
  sel <-
    (if String.eqb type "SP" then get "sequence" (sequence L1) (Z.of_nat tn)
     else if String.eqb type "AP" then
            get "repetition" (repetition L1) (Z.of_nat tn)
     else Raise (UnboundLocalError "P_ij")) ;;
  P_ij <- get "P" slice sel ;;
  P_ij_naive <- get "P_naive" (P_naive L1) sel ;;
  let P_sum_over_j := sum_rows P_ij in
  let P_sum_over_j_naive := sum_rows P_ij_naive in
  let P_sum_over_ij := np_sum P_sum_over_j in
  let P_sum_over_ij_naive := np_sum P_sum_over_j_naive in
  let P_sum_over_kij := sum_kij (s_res L1) slice in
  let posterior_lag := posterior L1 in
  Ok (with_posteriors L1
        (divide P_sum_over_j P_sum_over_ij)
        (divide P_sum_over_j_naive P_sum_over_ij_naive)
        (P_sum_over_ij / P_sum_over_kij),
      posterior_lag).

Definition predictive_surprisal (L : learner) : float :=
  - np_log (predictive L).

Definition bayesian_surprisal (L : learner) (posterior_lag : list float)
  : float :=
  mutual_info_score posterior_lag (posterior L).

Definition corrected_surprisal (L : learner) (posterior_lag : list float)
  : float :=
  mutual_info_score posterior_lag (posterior_naive L).

(** One line of the table: [[t, o_t, s_t, PS, BS, CS]], with the
    operands of the corrected surprisal kept beside it. *)
Record record : Type := {
  r_t : nat;
  r_obs : Z;
  r_hidden : Z;
  r_PS : float;
  r_BS : float;
  r_CS : float
}.

(** The body of the loop of [compute_surprisal]. *)
Definition compute_step (type : string) (acc : learner * list record)
    (tn : nat) : res (learner * list record) :=
  r <- update_posterior (fst acc) tn type ;;
  let L1 := fst r in
  let posterior_lag := snd r in
  let PS_temp := predictive_surprisal L1 in
  let BS_temp := bayesian_surprisal L1 posterior_lag in
  let CS_temp := corrected_surprisal L1 posterior_lag in
  o <- get "sequence" (sequence L1) (Z.of_nat tn) ;;
  h <- get "hidden" (hidden L1) (Z.of_nat tn) ;;
  Ok (L1, snd acc ++
          [{| r_t := tn; r_obs := o; r_hidden := h; r_PS := PS_temp;
              r_BS := BS_temp; r_CS := CS_temp |}]).

(** [compute_surprisal(type)]: primed at [t = 1], recorded from
    [t = 2]. *)
Definition compute_surprisal (L : learner) (type : string)
  : res (learner * list record) :=
  r <- update_posterior L 1 type ;;
  for_each (compute_step type) (range 2 (T L)) (fst r, []).

End Filter.

End GRW.

(* ================================================================= *)
(** * Properties *)

(** ** Facts about the Python conventions *)

Section PyFacts.
Import Py.

Lemma length_upd {A} n (x : A) l : length (upd n x l) = length l.
Proof.
  revert n; induction l as [|y l IH]; intros [|n]; simpl; auto.
Qed.

Lemma nth_error_upd_eq {A} n (x : A) l :
  (n < length l)%nat -> nth_error (upd n x l) n = Some x.
Proof.
  revert n; induction l as [|y l IH]; intros [|n] H; simpl in *;
    try lia; auto.
  apply IH; lia.
Qed.

Lemma nth_error_upd_ne {A} n m (x : A) l :
  n <> m -> nth_error (upd n x l) m = nth_error l m.
Proof.
  revert n m; induction l as [|y l IH]; intros [|n] [|m] H; simpl;
    try congruence; auto.
Qed.

Lemma norm_index_bound len i n :
  norm_index len i = Some n -> (n < len)%nat.
Proof.
  unfold norm_index.
  destruct ((0 <=? i)%Z && (i <? Z.of_nat len)%Z) eqn:E1.
  - intros [= <-]. apply andb_prop in E1 as [H1 H2]. lia.
  - destruct ((- Z.of_nat len <=? i)%Z && (i <? 0)%Z) eqn:E2;
      [|discriminate].
    intros [= <-]. apply andb_prop in E2 as [H1 H2]. lia.
Qed.

Lemma norm_index_nonneg len i :
  (0 <= i < Z.of_nat len)%Z -> norm_index len i = Some (Z.to_nat i).
Proof.
  intros H. unfold norm_index.
  replace ((0 <=? i)%Z && (i <? Z.of_nat len)%Z) with true; auto.
  symmetry; apply andb_true_intro; split; lia.
Qed.

Lemma norm_index_nat len n :
  (n < len)%nat -> norm_index len (Z.of_nat n) = Some n.
Proof.
  intros H. rewrite norm_index_nonneg by lia. now rewrite Nat2Z.id.
Qed.

Lemma norm_index_none len i :
  (i < - Z.of_nat len \/ Z.of_nat len <= i)%Z -> norm_index len i = None.
Proof.
  intros H. unfold norm_index.
  destruct ((0 <=? i)%Z && (i <? Z.of_nat len)%Z) eqn:E1.
  - apply andb_prop in E1 as [H1 H2]. lia.
  - destruct ((- Z.of_nat len <=? i)%Z && (i <? 0)%Z) eqn:E2; auto.
    apply andb_prop in E2 as [H1 H2]. lia.
Qed.

Lemma get_nat {A} place (l : list A) n x :
  nth_error l n = Some x -> get place l (Z.of_nat n) = Ok x.
Proof.
  intros H. unfold get.
  rewrite norm_index_nat by (apply nth_error_Some; congruence).
  now rewrite H.
Qed.

Lemma get_Ok_inv {A} place (l : list A) i x :
  get place l i = Ok x ->
  exists n, norm_index (length l) i = Some n /\ nth_error l n = Some x.
Proof.
  unfold get. destruct (norm_index (length l) i) as [n|]; [|discriminate].
  destruct (nth_error l n) eqn:E; simpl; [|discriminate].
  intros [= <-]. eauto.
Qed.

Lemma set_Ok_inv {A} place (l : list A) i x l' :
  set place l i x = Ok l' ->
  exists n, norm_index (length l) i = Some n /\ l' = upd n x l.
Proof.
  unfold set. destruct (norm_index (length l) i) as [n|]; [|discriminate].
  intros [= <-]. eauto.
Qed.

Lemma bind_Ok_inv {A B} (m : res A) (k : A -> res B) b :
  bind m k = Ok b -> exists a, m = Ok a /\ k a = Ok b.
Proof.
  destruct m; simpl; try discriminate. eauto.
Qed.

(** An invariant kept by every turn of a loop holds when it ends. *)
Lemma for_each_invariant {S X} (body : S -> X -> res S) (I : S -> Prop)
    xs s s' :
  I s ->
  (forall s1 x s2, In x xs -> I s1 -> body s1 x = Ok s2 -> I s2) ->
  for_each body xs s = Ok s' -> I s'.
Proof.
  revert s; induction xs as [|x xs IH]; simpl; intros s Hs Hstep Hrun.
  - now inversion Hrun; subst.
  - apply bind_Ok_inv in Hrun as (s1 & H1 & H2).
    apply (IH s1); eauto.
Qed.

Lemma for_each_app {S X} (body : S -> X -> res S) xs ys s :
  for_each body (xs ++ ys) s = bind (for_each body xs s) (for_each body ys).
Proof.
  revert s; induction xs as [|x xs IH]; simpl; intros s; auto.
  destruct (body s x); simpl; auto.
Qed.

Lemma map_res_length {X Y} (f : X -> res Y) xs ys :
  map_res f xs = Ok ys -> length ys = length xs.
Proof.
  revert ys; induction xs as [|x xs IH]; simpl; intros ys H.
  - now inversion H.
  - apply bind_Ok_inv in H as (y & _ & H).
    apply bind_Ok_inv in H as (ys' & H1 & H2).
    inversion H2; subst; simpl; f_equal; auto.
Qed.

End PyFacts.

(** ** The generator's transition matrices *)

Section TransitionMatrices.
Import Py SeqGen.

(** Exact float equality with one is Leibniz equality. *)
Lemma float_eqb_one (s : float) : PrimFloat.eqb s 1 = true -> s = 1%float.
Proof.
  intro H. apply Prim2SF_inj. rewrite FloatAxioms.eqb_spec in H.
  replace (Prim2SF 1) with (S754_finite false 4503599627370496 (-52)) in *
    by (vm_compute; reflexivity).
  unfold SFeqb, SFcompare in H.
  destruct (Prim2SF s) as [sg|sg| |sg m e];
    try (exfalso; clear -H; congruence).
  - destruct sg; exfalso; clear -H; congruence.
  - destruct sg; try (exfalso; clear -H; congruence).
    destruct (Z.compare_spec e (-52)); try (exfalso; clear -H; congruence).
    subst e.
    destruct (Pos.compare_cont Eq m 4503599627370496) eqn:E;
      try (exfalso; clear -H; congruence).
    apply Pos.compare_eq in E. rewrite E. reflexivity.
Qed.

Lemma eqb_one_within_tol (s : float) :
  PrimFloat.eqb s 1 = true -> within_tol s = true.
Proof.
  intro H. apply float_eqb_one in H. subst s. vm_compute. reflexivity.
Qed.

Lemma build_rows_lengths c B :
  build_rows c = Ok B -> length (fst B) = length (snd B).
Proof.
  unfold build_rows.
  apply (for_each_invariant _ (fun B => length (fst B) = length (snd B))).
  - reflexivity.
  - intros B1 i B2 _ HI Hb.
    apply bind_Ok_inv in Hb as (p0 & _ & Hb).
    apply bind_Ok_inv in Hb as (p1 & _ & Hb).
    inversion Hb; subst; simpl. rewrite !length_app; simpl. lia.
Qed.

Lemma existsb_combine_false {A} (f : A * A -> bool) (g : A -> bool) l1 l2 :
  (forall p, f p = false -> g (fst p) = true /\ g (snd p) = true) ->
  length l1 = length l2 ->
  existsb f (combine l1 l2) = false ->
  Forall (fun x => g x = true) (l1 ++ l2).
Proof.
  intros Hf. revert l2; induction l1 as [|a l1 IH]; intros [|b l2] Hl He;
    simpl in *; try discriminate; auto.
  apply orb_false_elim in He as [H1 H2].
  destruct (Hf _ H1) as [Ha Hb]; simpl in *.
  specialize (IH l2 ltac:(lia) H2).
  apply Forall_app in IH as [I1 I2].
  constructor; auto. apply Forall_app; split; auto.
Qed.

Lemma existsb_combine_true {A} (f : A * A -> bool) (g : A -> bool) l1 l2 :
  (forall p, g (fst p) = false \/ g (snd p) = false -> f p = true) ->
  length l1 = length l2 ->
  Exists (fun x => g x = false) (l1 ++ l2) ->
  existsb f (combine l1 l2) = true.
Proof.
  intros Hf. revert l2; induction l1 as [|a l1 IH]; intros [|b l2] Hl He;
    simpl in *; try discriminate.
  - inversion He.
  - apply Exists_cons in He as [He|He].
    + rewrite (Hf (a, b)); auto.
    + apply Exists_app in He as [He|He].
      * rewrite (IH l2); [apply orb_true_r|lia|].
        apply Exists_app; auto.
      * apply Exists_cons in He as [He|He].
        -- rewrite (Hf (a, b)); auto.
        -- rewrite (IH l2); [apply orb_true_r|lia|].
           apply Exists_app; auto.
Qed.

(** C9.  Every row of both matrices of a constructed generator sums to
    one within 1e-9 (the test of [construct_transitions] is exact float
    equality with one), and construction raises the ValueError of the
    configuration checks whenever a row built by [construct_transitions]
    does not sum to one within that tolerance. *)
Theorem construct_transitions_row_stochastic (c : config) :
  (forall g, init c = Ok g ->
     Forall (fun row => within_tol (np_sum row) = true)
            (fst (transition_matrices g) ++ snd (transition_matrices g)))
  /\
  (forall B, build_rows c = Ok B ->
     Exists (fun row => within_tol (np_sum row) = false) (fst B ++ snd B) ->
     exists msg, init c = Raise (ValueError msg)).
Proof.
  split.
  - intros g Hg. unfold init in Hg.
    apply bind_Ok_inv in Hg as (u & _ & Hg).
    apply bind_Ok_inv in Hg as (B & HB & Hg).
    inversion Hg; subst; simpl. clear Hg.
    unfold construct_transitions in HB.
    apply bind_Ok_inv in HB as (B' & Hrows & HB).
    destruct (existsb row_pair_bad (combine (fst B') (snd B'))) eqn:E;
      [discriminate|].
    inversion HB; subst.
    apply (existsb_combine_false row_pair_bad
             (fun row => within_tol (np_sum row))); auto.
    + intros p Hp. unfold row_pair_bad in Hp.
      apply orb_false_elim in Hp as [H1 H2].
      apply negb_false_iff in H1, H2.
      split; apply eqb_one_within_tol; assumption.
    + eapply build_rows_lengths; eauto.
  - intros B HB Hbad. unfold init.
    destruct (check_input_dim c) as [[]|e|] eqn:Hc; simpl.
    + unfold construct_transitions. rewrite HB; simpl.
      assert (E : existsb row_pair_bad (combine (fst B) (snd B)) = true).
      { apply (existsb_combine_true row_pair_bad
                 (fun row => within_tol (np_sum row))); auto.
        - intros p Hp. unfold row_pair_bad.
          apply orb_true_iff.
          destruct Hp as [Hp|Hp]; [left|right]; apply negb_true_iff;
            destruct (PrimFloat.eqb (np_sum _) 1) eqn:E; auto;
            apply eqb_one_within_tol in E; congruence.
        - eapply build_rows_lengths; eauto. }
      rewrite E. simpl. eauto.
    + unfold check_input_dim in Hc.
      repeat match type of Hc with
             | (if ?b then _ else _) = _ => destruct b
             end; inversion Hc; eauto.
    + unfold check_input_dim in Hc.
      repeat match type of Hc with
             | (if ?b then _ else _) = _ => destruct b
             end; inversion Hc.
Qed.

(** A configuration that constructs, and one whose first row is far from
    stochastic ([prob_obs_change] entries are not range-checked). *)
Definition good_config : config :=
  {| order := 1; prob_catch := 0.05;
     prob_regime_init := [0.5; 0.5]%float; prob_regime_change := 0.01;
     prob_obs_init := [0.5; 0.5; 0]%float;
     prob_obs_change := [0.25; 0.75; 0.75; 0.25]%float |}.

Definition bad_config : config :=
  {| order := 1; prob_catch := 0.05;
     prob_regime_init := [0.5; 0.5]%float; prob_regime_change := 0.01;
     prob_obs_init := [0.5; 0.5; 0]%float;
     prob_obs_change := [1e30; 0.75; 0.75; 0.25]%float |}.

Lemma construct_transitions_row_stochastic_witness :
  (exists g, init good_config = Ok g /\
     Forall (fun row => within_tol (np_sum row) = true)
            (fst (transition_matrices g) ++ snd (transition_matrices g)))
  /\ (exists msg, init bad_config = Raise (ValueError msg)).
Proof.
  split.
  - destruct (init good_config) as [g|e|] eqn:E.
    + exists g. split; [reflexivity|].
      exact (proj1 (construct_transitions_row_stochastic good_config) g E).
    + vm_compute in E. discriminate E.
    + vm_compute in E. discriminate E.
  - eapply (proj2 (construct_transitions_row_stochastic bad_config)).
    + vm_compute. reflexivity.
    + apply Exists_cons_hd. vm_compute. reflexivity.
Defined.

End TransitionMatrices.

(** ** The sampler *)

Section Sampler.
Import Py SeqGen.
Local Open Scope Z_scope.

Variable s2 : option Z.

(** A store at trial [tn] leaves the other trials as they were. *)
Definition frame (tn : nat) (Qm Qm' : trials) : Prop :=
  length Qm' = length Qm /\
  forall n, n <> tn -> nth_error Qm' n = nth_error Qm n.

Lemma frame_refl tn Qm : frame tn Qm Qm.
Proof. split; auto. Qed.

Lemma frame_trans tn Q1 Q2 Q3 :
  frame tn Q1 Q2 -> frame tn Q2 Q3 -> frame tn Q1 Q3.
Proof.
  intros [L1 H1] [L2 H2]; split; [congruence|].
  intros n Hn. rewrite H2, H1; auto.
Qed.

Lemma frame_upd tn x Qm : frame tn Qm (upd tn x Qm).
Proof.
  split; [apply length_upd|].
  intros n Hn. apply nth_error_upd_ne; auto.
Qed.

Lemma norm_index_of_nat_inv len tn n :
  norm_index len (Z.of_nat tn) = Some n -> n = tn /\ (tn < len)%nat.
Proof.
  unfold norm_index.
  destruct ((0 <=? Z.of_nat tn) && (Z.of_nat tn <? Z.of_nat len)) eqn:E1.
  - intros [= <-]. apply andb_prop in E1 as [H1 H2].
    rewrite Nat2Z.id. split; [reflexivity|lia].
  - destruct ((- Z.of_nat len <=? Z.of_nat tn) && (Z.of_nat tn <? 0))
      eqn:E2; [|discriminate].
    apply andb_prop in E2 as [H1 H2]. lia.
Qed.

Lemma get_nat_inv {A} place (l : list A) tn x :
  get place l (Z.of_nat tn) = Ok x -> nth_error l tn = Some x.
Proof.
  intros H. apply get_Ok_inv in H as (n & Hn & Hx).
  apply norm_index_of_nat_inv in Hn as [-> _]. exact Hx.
Qed.

Lemma obs_at_nat Qm tn o :
  obs_at Qm (Z.of_nat tn) = Ok o ->
  exists r, nth_error Qm tn = Some r /\ snd r = o.
Proof.
  unfold obs_at. intros H. apply bind_Ok_inv in H as (r & Hr & Ho).
  apply get_nat_inv in Hr. inversion Ho; eauto.
Qed.

Lemma obs_at_intro Qm tn r :
  nth_error Qm tn = Some r -> obs_at Qm (Z.of_nat tn) = Ok (snd r).
Proof.
  intros H. unfold obs_at. now rewrite (get_nat _ _ _ _ H).
Qed.

Lemma set_obs_nat Qm tn v Qm' :
  set_obs Qm (Z.of_nat tn) v = Ok Qm' ->
  exists r, nth_error Qm tn = Some r /\ Qm' = upd tn (fst r, v) Qm.
Proof.
  unfold set_obs. intros H. apply bind_Ok_inv in H as (r & Hr & Hs).
  apply get_nat_inv in Hr.
  apply set_Ok_inv in Hs as (n & Hn & ->).
  apply norm_index_of_nat_inv in Hn as [-> _]. eauto.
Qed.

Lemma set_regime_nat Qm tn v Qm' :
  set_regime Qm (Z.of_nat tn) v = Ok Qm' ->
  exists r, nth_error Qm tn = Some r /\ Qm' = upd tn (v, snd r) Qm.
Proof.
  unfold set_regime. intros H. apply bind_Ok_inv in H as (r & Hr & Hs).
  apply get_nat_inv in Hr.
  apply set_Ok_inv in Hs as (n & Hn & ->).
  apply norm_index_of_nat_inv in Hn as [-> _]. eauto.
Qed.

Lemma category_index_range d : 0 <= category_index d <= 3.
Proof. destruct d; simpl; lia. Qed.

Lemma flip_regime_range act :
  act = 0 \/ act = 1 -> flip_regime act = 0 \/ flip_regime act = 1.
Proof. intros [-> | ->]; simpl; auto. Qed.

(** Where the while loop of [sample] has nothing to redraw. *)
Lemma resample_noop fuel ord t ds Qm act evs o :
  obs_at Qm t = Ok o -> o <> 3 ->
  resample s2 fuel ord t ds Qm act evs
  = Ok {| Qarr := Qm; act_regime := act; rest := ds; events := evs |}.
Proof.
  intros Ho Hne.
  destruct ds; simpl; rewrite Ho; simpl;
    (destruct (o =? 3) eqn:E; [apply Z.eqb_eq in E; contradiction|]);
    reflexivity.
Qed.

(** What the while loop leaves behind. *)
Lemma resample_spec fuel ord tn ds :
  forall Qm act evs s',
  resample s2 fuel ord (Z.of_nat tn) ds Qm act evs = Ok s' ->
  frame tn Qm (Qarr s') /\
  (exists evs', events s' = evs ++ evs' /\
                Forall (fun e => ev_t e = Z.of_nat tn) evs') /\
  (exists r0 r, nth_error Qm tn = Some r0 /\
                nth_error (Qarr s') tn = Some r /\
                snd r <> 3 /\ (snd r = snd r0 \/ 0 <= snd r <= 2)) /\
  (act = 0 \/ act = 1 -> act_regime s' = 0 \/ act_regime s' = 1).
Proof.
  induction ds as [|d ds IH]; intros Qm act evs s' H.
  - simpl in H. apply bind_Ok_inv in H as (o & Ho & H).
    destruct (o =? 3) eqn:E.
    + apply bind_Ok_inv in H as (idx & _ & H).
      apply bind_Ok_inv in H as (u & _ & H). discriminate.
    + inversion H; subst; simpl. apply Z.eqb_neq in E.
      apply obs_at_nat in Ho as (r & Hr & <-).
      repeat split; auto using frame_refl.
      * exists []. rewrite app_nil_r. auto.
      * exists r, r. auto.
  - simpl in H. apply bind_Ok_inv in H as (o & Ho & H).
    destruct (o =? 3) eqn:E.
    + apply bind_Ok_inv in H as (idx & _ & H).
      apply bind_Ok_inv in H as (u & _ & H).
      apply bind_Ok_inv in H as (Qm' & Hset & H).
      apply set_obs_nat in Hset as (r0 & Hr0 & ->).
      apply IH in H as (Hf & (evs' & Hev & Hall) & (r1 & r & H1 & Hr & Hne & Hor)
                        & Hact).
      assert (Hlt : (tn < length Qm)%nat)
        by (apply nth_error_Some; congruence).
      rewrite nth_error_upd_eq in H1 by exact Hlt.
      inversion H1; subst r1; simpl in *.
      split; [|split; [|split]].
      * apply (frame_trans tn _ (upd tn (fst r0, category_index d) Qm));
          auto using frame_upd.
      * exists ({| ev_t := Z.of_nat tn; ev_regime := flip_regime act;
                   ev_idx := idx |} :: evs').
        rewrite Hev, <- app_assoc. split; [reflexivity|].
        constructor; auto.
      * exists r0, r. repeat split; auto.
        destruct Hor as [Hor|Hor]; [|auto].
        right. rewrite Hor. pose proof (category_index_range d). lia.
      * intros Ha. apply Hact. apply flip_regime_range; auto.
    + inversion H; subst; simpl. apply Z.eqb_neq in E.
      apply obs_at_nat in Ho as (r & Hr & <-).
      repeat split; auto using frame_refl.
      * exists []. rewrite app_nil_r. auto.
      * exists r, r. auto.
Qed.

Lemma draw_obs_spec fuel ord tn s s' :
  draw_obs s2 fuel ord (Z.of_nat tn) s = Ok s' ->
  exists r0 d idx,
    nth_error (Qarr s) tn = Some r0 /\
    rest s = d :: rest s' /\
    Qarr s' = upd tn (fst r0, category_index d) (Qarr s) /\
    act_regime s' = act_regime s /\
    events s' = events s ++
      [{| ev_t := Z.of_nat tn; ev_regime := act_regime s; ev_idx := idx |}].
Proof.
  unfold draw_obs. intros H.
  apply bind_Ok_inv in H as (idx & _ & H).
  apply bind_Ok_inv in H as (u & _ & H).
  destruct (rest s) as [|d ds] eqn:Hr; [discriminate|].
  apply bind_Ok_inv in H as (Qm & Hset & H).
  apply set_obs_nat in Hset as (r0 & Hr0 & ->).
  inversion H; subst; simpl. exists r0, d, idx. auto.
Qed.

(** One turn of the loop of [sample]: only trial [tn] is written, every
    draw is logged for [tn], and the trial ends with its regime set and
    an observation other than the switch marker. *)
Lemma step_spec fuel ord s tn s' :
  step s2 fuel ord s tn = Ok s' ->
  frame tn (Qarr s) (Qarr s') /\
  (exists evs', events s' = events s ++ evs' /\
                Forall (fun e => ev_t e = Z.of_nat tn) evs') /\
  (exists r0 r, nth_error (Qarr s) tn = Some r0 /\
                nth_error (Qarr s') tn = Some r /\
                fst r = act_regime s' /\
                snd r <> 3 /\ (snd r = snd r0 \/ 0 <= snd r <= 2)) /\
  (act_regime s = 0 \/ act_regime s = 1 ->
   act_regime s' = 0 \/ act_regime s' = 1).
Proof.
  unfold step. intros H.
  apply bind_Ok_inv in H as (prev & _ & H).
  apply bind_Ok_inv in H as (s1 & H1 & H).
  apply bind_Ok_inv in H as (s3 & H3 & H).
  apply bind_Ok_inv in H as (Qm & Hset & H).
  inversion H; subst; simpl; clear H.
  apply set_regime_nat in Hset as (r3 & Hr3 & ->).
  apply resample_spec in H3
    as (Hf3 & (evs3 & Hev3 & Hall3) & (r1 & r & Hr1 & Hr & Hne & Hor) & Hact3).
  rewrite Hr in Hr3; inversion Hr3; subst r3; clear Hr3.
  assert (Hlt3 : (tn < length (Qarr s3))%nat)
    by (apply nth_error_Some; congruence).
  assert (Hs1 : frame tn (Qarr s) (Qarr s1) /\
                (exists evs1, events s1 = events s ++ evs1 /\
                   Forall (fun e => ev_t e = Z.of_nat tn) evs1) /\
                (exists r0, nth_error (Qarr s) tn = Some r0 /\
                   (snd r1 = snd r0 \/ 0 <= snd r1 <= 3)) /\
                act_regime s1 = act_regime s).
  { destruct (negb (prev =? 2)).
    - apply draw_obs_spec in H1 as (r0 & d & idx & Hr0 & _ & HQ & Ha & He).
      assert (Hlt : (tn < length (Qarr s))%nat)
        by (apply nth_error_Some; congruence).
      rewrite HQ in *. rewrite nth_error_upd_eq in Hr1 by exact Hlt.
      inversion Hr1; subst r1; simpl.
      repeat split; auto using length_upd.
      + intros n Hn. apply nth_error_upd_ne; auto.
      + eexists; split; [exact He|]. constructor; auto.
      + exists r0. split; auto. right. apply category_index_range.
    - inversion H1; subst s1.
      repeat split; auto.
      + exists []. rewrite app_nil_r; auto.
      + exists r1. auto. }
  destruct Hs1 as (Hf1 & (evs1 & Hev1 & Hall1) & (r0 & Hr0 & Hor1) & Ha1).
  split; [|split; [|split]].
  - apply (frame_trans tn _ (Qarr s1)); auto.
    apply (frame_trans tn _ (Qarr s3)); auto using frame_upd.
  - exists (evs1 ++ evs3). rewrite Hev3, Hev1, app_assoc.
    split; auto. apply Forall_app; auto.
  - exists r0, (act_regime s3, snd r). rewrite nth_error_upd_eq by exact Hlt3.
    simpl. repeat split; auto.
    destruct Hor as [Hor|Hor]; [|auto].
    destruct Hor1 as [Hor1|Hor1]; [left; congruence|].
    right. rewrite Hor in *. lia.
  - intros Ha. apply Hact3. rewrite Ha1. exact Ha.
Qed.

(** After a catch trial the turn draws nothing: the guard
    [if Q[t-1, 1] != 2] skips the draw and the while loop has nothing to
    redraw, so the observation keeps the value the array was created
    with. *)
Lemma step_after_catch fuel ord s tn s' r0 :
  obs_at (Qarr s) (Z.of_nat tn - 1) = Ok 2 ->
  nth_error (Qarr s) tn = Some r0 -> snd r0 <> 3 ->
  step s2 fuel ord s tn = Ok s' ->
  events s' = events s /\
  nth_error (Qarr s') tn = Some (act_regime s, snd r0).
Proof.
  intros Hprev Hr0 Hne. unfold step. rewrite Hprev. simpl.
  rewrite (resample_noop _ _ _ _ _ _ _ (snd r0))
    by (auto using obs_at_intro).
  simpl. intros H.
  apply bind_Ok_inv in H as (Qm & Hset & H).
  inversion H; subst; simpl; clear H.
  apply set_regime_nat in Hset as (r & Hr & ->).
  rewrite Hr in Hr0; inversion Hr0; subst.
  split; auto.
  apply nth_error_upd_eq. apply nth_error_Some; congruence.
Qed.


(** The loop over a list of trials writes those trials only. *)
Lemma loop_spec fuel ord xs :
  forall s s',
  for_each (step s2 fuel ord) xs s = Ok s' ->
  length (Qarr s') = length (Qarr s) /\
  (forall n, ~ In n xs -> nth_error (Qarr s') n = nth_error (Qarr s) n) /\
  (exists evs', events s' = events s ++ evs' /\
     Forall (fun e => exists x, In x xs /\ ev_t e = Z.of_nat x) evs').
Proof.
  induction xs as [|x xs IH]; simpl; intros s s' H.
  - inversion H; subst. repeat split; auto.
    exists []. rewrite app_nil_r; auto.
  - apply bind_Ok_inv in H as (s1 & H1 & H).
    apply step_spec in H1 as ([Hl1 Hf1] & (e1 & He1 & Ha1) & _ & _).
    apply IH in H as (Hl & Hf & (e2 & He2 & Ha2)).
    split; [congruence|]. split.
    + intros n Hn. rewrite Hf, Hf1; auto.
    + exists (e1 ++ e2). rewrite He2, He1, app_assoc. split; auto.
      apply Forall_app; split.
      * eapply Forall_impl; [|exact Ha1]. simpl; intros e He; eauto.
      * eapply Forall_impl; [|exact Ha2]. simpl.
        intros e (y & Hy & He); eauto.
Qed.

(** Regimes are 0 or 1 and observations 0, 1 or 2 (catch). *)
Definition settled (r : Z * Z) : Prop :=
  (fst r = 0 \/ fst r = 1) /\ 0 <= snd r <= 2.

Definition all_settled (s : sampler) : Prop :=
  (act_regime s = 0 \/ act_regime s = 1) /\
  forall n r, nth_error (Qarr s) n = Some r -> settled r.

Lemma step_settled fuel ord s tn s' :
  all_settled s -> step s2 fuel ord s tn = Ok s' -> all_settled s'.
Proof.
  intros [Ha Hall] H.
  apply step_spec in H
    as ([Hl Hf] & _ & (r0 & r & Hr0 & Hr & Hfst & Hne & Hor) & Hact).
  split; [auto|].
  intros n x Hx. destruct (Nat.eq_dec n tn) as [->|Hn].
  - rewrite Hr in Hx; inversion Hx; subst x.
    split; [rewrite Hfst; auto|].
    destruct Hor as [Hor|Hor]; [|exact Hor].
    rewrite Hor. apply (Hall _ _ Hr0).
  - rewrite Hf in Hx by exact Hn. eauto.
Qed.

Lemma seeded_nth ord L r o n x :
  nth_error (seeded ord L r o) n = Some x -> x = (r, o) \/ x = (0, 0).
Proof.
  intros H. apply nth_error_In in H. unfold seeded in H.
  apply in_app_or in H as [H|H]; apply repeat_spec in H; auto.
Qed.

Lemma seeded_length ord L r o : length (seeded ord L r o) = L.
Proof.
  unfold seeded. rewrite length_app, !repeat_length. lia.
Qed.

Lemma seeded_unsampled ord L r o n :
  (ord <= n < L)%nat -> nth_error (seeded ord L r o) n = Some (0, 0).
Proof.
  intros H. unfold seeded.
  rewrite nth_error_app2; rewrite repeat_length; [|lia].
  apply nth_error_repeat. lia.
Qed.

Lemma sample_loop_settled ord L tp s :
  sample_loop s2 ord L tp = Ok s -> all_settled s.
Proof.
  unfold sample_loop. intros H.
  apply bind_Ok_inv in H as (act & Hact & H).
  assert (Hseed : forall n x,
            nth_error (seeded ord L (seed2_index (regime_seed tp))
                         (seed3_index (obs_seed tp))) n = Some x ->
            settled x).
  { intros n x Hx. apply seeded_nth in Hx as [-> | ->]; unfold settled;
      simpl; [|lia].
    destruct (regime_seed tp), (obs_seed tp); simpl; lia. }
  revert H. apply for_each_invariant.
  - split; simpl; [|exact Hseed].
    unfold regime_at in Hact. apply bind_Ok_inv in Hact as (x & Hx & Hact).
    inversion Hact; subst. apply (get_nat_inv _ _ 1%nat) in Hx.
    apply Hseed in Hx. apply Hx.
  - intros s1 x s3 _ HI Hstep. eapply step_settled; eauto.
Qed.

Lemma finish_nth_from k Qm n r :
  nth_error Qm n = Some r ->
  nth_error
    (map (fun tr : nat * (Q * Q) =>
            (inject_Z (Z.of_nat (fst tr)), fst (snd tr), snd (snd tr)))
       (combine (seq k (length Qm)) (map to_float_row (map mark_catch Qm))))
    n
  = Some (inject_Z (Z.of_nat (k + n)),
          fst (to_float_row (mark_catch r)),
          snd (to_float_row (mark_catch r))).
Proof.
  revert k n; induction Qm as [|x Qm IH]; intros k [|n] H; simpl in *;
    try discriminate.
  - inversion H; subst. now rewrite Nat.add_0_r.
  - rewrite (IH (S k) n H). do 4 f_equal. lia.
Qed.

Lemma finish_nth Qm n r :
  nth_error Qm n = Some r ->
  nth_error (finish Qm) n
  = Some (inject_Z (Z.of_nat n),
          fst (to_float_row (mark_catch r)),
          snd (to_float_row (mark_catch r))).
Proof. intros H. unfold finish. now rewrite (finish_nth_from 0 Qm n r H). Qed.


Lemma range_split a b t :
  (a <= t < b)%nat ->
  range a b = range a t ++ t :: range (S t) b.
Proof.
  intros H. unfold range.
  replace (b - a)%nat with ((t - a) + S (b - S t))%nat by lia.
  rewrite seq_app. simpl.
  replace (a + (t - a))%nat with t by lia. reflexivity.
Qed.

Lemma in_range a b x : In x (range a b) <-> (a <= x < b)%nat.
Proof. unfold range. rewrite in_seq. lia. Qed.

(** C1.  What [sample] does at a trial whose predecessor is a catch
    trial: the guard [if Q[t-1, 1] != 2] skips [get_sample_idx] and the
    draw, so no transition row is drawn from for trial [t] and its
    observation is the zero the array was created with.  The backward
    lookback of [get_sample_idx] is never entered for such a trial. *)
Theorem sample_skips_draw_after_catch ord L tp s t :
  sample_loop s2 ord L tp = Ok s ->
  (ord <= t < L)%nat -> (1 <= t)%nat ->
  obs_at (Qarr s) (Z.of_nat t - 1) = Ok 2 ->
  obs_at (Qarr s) (Z.of_nat t) = Ok 0 /\
  Forall (fun e => ev_t e <> Z.of_nat t) (events s).
Proof.
  intros H Ht H1 Hprev. unfold sample_loop in H.
  apply bind_Ok_inv in H as (act & _ & H).
  rewrite (range_split ord L t Ht), for_each_app in H.
  apply bind_Ok_inv in H as (sa & Ha & H). simpl in H.
  apply bind_Ok_inv in H as (sb & Hb & Hc).
  apply loop_spec in Ha as (La & Fa & (ea & Ea & Aa)). simpl in *.
  apply loop_spec in Hc as (Lc & Fc & (ec & Ec & Ac)).
  pose proof (step_spec _ _ _ _ _ Hb) as ([Lb Fb] & _).
  replace (Z.of_nat t - 1) with (Z.of_nat (t - 1)) in Hprev by lia.
  apply obs_at_nat in Hprev as (rp & Hrp & Hrp2).
  assert (Hta : nth_error (Qarr sa) t = Some (0, 0)).
  { rewrite Fa by (rewrite in_range; lia).
    apply seeded_unsampled; exact Ht. }
  assert (Hpa : obs_at (Qarr sa) (Z.of_nat t - 1) = Ok 2).
  { replace (Z.of_nat t - 1) with (Z.of_nat (t - 1)) by lia.
    rewrite <- Hrp2. apply obs_at_intro.
    rewrite <- Fb by lia. rewrite <- Fc; [exact Hrp|].
    rewrite in_range; lia. }
  destruct (step_after_catch _ _ _ _ _ _ Hpa Hta ltac:(simpl; lia) Hb)
    as [Eb Hb'].
  split.
  - change 0 with (snd (act_regime sa, 0)). apply obs_at_intro.
    rewrite Fc; [exact Hb'|]. rewrite in_range; lia.
  - rewrite Ec, Eb, Ea. simpl. apply Forall_app; split.
    + eapply Forall_impl; [|exact Aa]. simpl.
      intros e (x & Hx & ->). apply in_range in Hx. lia.
    + eapply Forall_impl; [|exact Ac]. simpl.
      intros e (x & Hx & ->). apply in_range in Hx. lia.
Qed.

(** C4 (amended).  In the array [sample] returns, a catch trial carries
    hidden regime 2 and observation one half ([save] rewrites the half
    to 2 before the sequence is stored), and every other trial carries
    an observation in {0, 1} and a regime in {0, 1}. *)
Theorem sample_marks_catch_trials ord L tp s :
  sample_loop s2 ord L tp = Ok s ->
  sample s2 ord L tp = Ok (finish (Qarr s)) /\
  forall n r, nth_error (Qarr s) n = Some r ->
    exists hid obs,
      nth_error (finish (Qarr s)) n
      = Some (inject_Z (Z.of_nat n), hid, obs) /\
      (snd r = 2 -> hid = 2%Q /\ obs = (1 # 2)%Q) /\
      (snd r <> 2 ->
       (hid = 0%Q \/ hid = 1%Q) /\ (obs = 0%Q \/ obs = 1%Q)).
Proof.
  intros H. split.
  - unfold sample. now rewrite H.
  - intros n r Hr.
    destruct (sample_loop_settled _ _ _ _ H) as [_ Hall].
    destruct (Hall n r Hr) as [Hreg Hobs].
    rewrite (finish_nth _ _ _ Hr).
    do 2 eexists; split; [reflexivity|].
    unfold to_float_row, mark_catch.
    destruct r as [a b]; simpl in *. split.
    + intros ->. simpl. auto.
    + intros Hb. destruct (b =? 2) eqn:E; [apply Z.eqb_eq in E; lia|].
      simpl. rewrite E. split.
      * destruct Hreg as [-> | ->]; auto.
      * assert (b = 0 \/ b = 1) as [-> | ->] by lia; auto.
Qed.


End Sampler.

(** *** A run with a catch trial

    First order, three trials, seeds regime 0 and observation 0, and a
    catch drawn at trial 1.  Trial 2 follows the catch trial. *)

Definition catch_tape : SeqGen.tape :=
  {| SeqGen.regime_seed := SeqGen.Seed2_0;
     SeqGen.obs_seed := SeqGen.Seed3_0;
     SeqGen.draws := [SeqGen.NextCatch] |}.

Definition catch_run : SeqGen.sampler :=
  {| SeqGen.Qarr := [(0, 0); (0, 2); (0, 0)]%Z;
     SeqGen.act_regime := 0%Z;
     SeqGen.rest := [];
     SeqGen.events :=
       [{| SeqGen.ev_t := 1; SeqGen.ev_regime := 0; SeqGen.ev_idx := 0 |}]%Z
  |}.

Lemma catch_run_sampled :
  SeqGen.sample_loop None 1 3 catch_tape = Py.Ok catch_run.
Proof. vm_compute. reflexivity. Qed.

Lemma sample_skips_draw_after_catch_witness :
  SeqGen.obs_at (SeqGen.Qarr catch_run) (Z.of_nat 2) = Py.Ok 0%Z /\
  Forall (fun e => SeqGen.ev_t e <> Z.of_nat 2) (SeqGen.events catch_run).
Proof.
  apply (sample_skips_draw_after_catch None 1 3 catch_tape catch_run 2).
  - vm_compute. reflexivity.
  - lia.
  - lia.
  - vm_compute. reflexivity.
Defined.

(** The array returned for that run: the catch trial is the row
    [(1, 2, 1/2)], so its observation is not the category 2. *)
Lemma sample_catch_observation_is_half :
  SeqGen.sample None 1 3 catch_tape
  = Py.Ok [(0, 0, 0); (1, 2, 1 # 2); (2, 0, 0)]%Q
  /\ nth_error (SeqGen.Qarr catch_run) 1 = Some (0, 2)%Z
  /\ ~ ((1 # 2) == 2)%Q.
Proof.
  split; [vm_compute; reflexivity|].
  split; [reflexivity|].
  intros H. vm_compute in H. discriminate H.
Qed.

Lemma sample_marks_catch_trials_witness :
  SeqGen.sample None 1 3 catch_tape
  = Py.Ok (SeqGen.finish (SeqGen.Qarr catch_run)) /\
  forall n r, nth_error (SeqGen.Qarr catch_run) n = Some r ->
    exists hid obs,
      nth_error (SeqGen.finish (SeqGen.Qarr catch_run)) n
      = Some (inject_Z (Z.of_nat n), hid, obs) /\
      (snd r = 2%Z -> hid = 2%Q /\ obs = (1 # 2)%Q) /\
      (snd r <> 2%Z ->
       (hid = 0%Q \/ hid = 1%Q) /\ (obs = 0%Q \/ obs = 1%Q)).
Proof.
  apply (sample_marks_catch_trials None 1 3 catch_tape catch_run).
  vm_compute. reflexivity.
Defined.

(** ** The indicator tables of the Dirichlet learner *)

Section IndicatorTables.
Import Py CatDir.
Local Open Scope Q_scope.

Lemma upd_same {A} n (x : A) l : nth_error l n = Some x -> upd n x l = l.
Proof.
  revert n; induction l as [|y l IH]; intros [|n] H; simpl in *;
    try discriminate; auto.
  - now inversion H.
  - f_equal; auto.
Qed.

Lemma set_nat {A} place (l : list A) n x :
  (n < length l)%nat -> set place l (Z.of_nat n) x = Ok (upd n x l).
Proof. intros H. unfold set. now rewrite norm_index_nat. Qed.

Lemma set_beyond {A} place (l : list A) n x :
  (length l <= n)%nat ->
  set place l (Z.of_nat n) x = Raise (IndexError place).
Proof. intros H. unfold set. rewrite norm_index_none; auto. lia. Qed.

Lemma set2_inv place M i j x M' :
  set2 place M (Z.of_nat i) j x = Ok M' ->
  exists row n, nth_error M i = Some row /\
                norm_index (length row) j = Some n /\
                M' = upd i (upd n x row) M.
Proof.
  unfold set2. intros H.
  apply bind_Ok_inv in H as (row & Hrow & H).
  apply bind_Ok_inv in H as (row' & Hset & H).
  apply get_nat_inv in Hrow.
  apply set_Ok_inv in Hset as (n & Hn & ->).
  apply set_Ok_inv in H as (m & Hm & ->).
  apply norm_index_of_nat_inv in Hm as [-> _]. eauto.
Qed.

Lemma set2_nat place M i j x row :
  nth_error M i = Some row -> (j < length row)%nat ->
  set2 place M (Z.of_nat i) (Z.of_nat j) x = Ok (upd i (upd j x row) M).
Proof.
  intros Hrow Hj. unfold set2.
  rewrite (get_nat _ _ _ _ Hrow). simpl.
  rewrite set_nat by exact Hj. simpl.
  apply set_nat. apply nth_error_Some. congruence.
Qed.

Lemma set2_beyond place M i j x row :
  nth_error M i = Some row -> (length row <= j)%nat ->
  set2 place M (Z.of_nat i) (Z.of_nat j) x = Raise (IndexError place).
Proof.
  intros Hrow Hj. unfold set2.
  rewrite (get_nat _ _ _ _ Hrow). simpl.
  now rewrite set_beyond by exact Hj.
Qed.

(** A loop whose turn [tn] rewrites entry [tn] only: every entry it
    visits is related to its first value by the turn's relation [g]. *)
Lemma for_each_pointwise {A} (body : list A -> nat -> res (list A))
    (g : nat -> option A -> option A -> Prop) (xs : list nat) :
  (forall M tn M', In tn xs -> body M tn = Ok M' ->
     length M' = length M /\
     (forall k, k <> tn -> nth_error M' k = nth_error M k) /\
     g tn (nth_error M tn) (nth_error M' tn)) ->
  NoDup xs ->
  forall M M', for_each body xs M = Ok M' ->
    length M' = length M /\
    forall k, (In k xs -> g k (nth_error M k) (nth_error M' k)) /\
              (~ In k xs -> nth_error M' k = nth_error M k).
Proof.
  induction xs as [|x xs IH]; intros Hstep Hnd M M' H; simpl in H.
  - inversion H; subst. split; auto. intros k; split; [intros []|auto].
  - apply bind_Ok_inv in H as (M1 & H1 & H).
    inversion Hnd as [|? ? Hx Hnd']; subst.
    apply Hstep in H1 as (L1 & F1 & G1); [|now left].
    apply IH in H as (L2 & F2); auto.
    2:{ intros M0 tn M0' Hin. apply Hstep. now right. }
    split; [congruence|].
    intros k; split.
    + intros [<- | Hin].
      * destruct (F2 x) as [_ F2x]. rewrite F2x by exact Hx. exact G1.
      * destruct (F2 k) as [F2k _]. specialize (F2k Hin).
        rewrite <- F1; [exact F2k|]. intros ->. contradiction.
    + intros Hk. destruct (F2 k) as [_ F2k].
      rewrite F2k by (intros Hin; apply Hk; now right).
      apply F1. intros ->. apply Hk. now left.
Qed.

Lemma range_NoDup a b : NoDup (range a b).
Proof. apply seq_NoDup. Qed.

Lemma mem_range a b x : In x (range a b) <-> (a <= x < b)%nat.
Proof. unfold range. rewrite in_seq. lia. Qed.

Lemma zeros2_nth r c k :
  (k < r)%nat -> nth_error (zeros2 r c) k = Some (zeros c).
Proof. intros H. unfold zeros2. now apply nth_error_repeat. Qed.

(** *** [stim_ind] *)

Definition stim_row (seq : list Z) (no_obs : nat) (k : nat)
    (row : list Q) : Prop :=
  exists o n, nth_error seq k = Some o /\
              norm_index no_obs o = Some n /\
              row = upd n 1 (zeros no_obs).

Lemma build_stim_ind_spec seq no_obs M :
  build_stim_ind seq no_obs = Ok M ->
  length M = length seq /\
  forall k, (k < length seq)%nat ->
    exists row, nth_error M k = Some row /\ stim_row seq no_obs k row.
Proof.
  unfold build_stim_ind. intros H.
  apply (for_each_pointwise _
           (fun k r r' => r = Some (zeros no_obs) ->
              exists row, r' = Some row /\ stim_row seq no_obs k row))
    in H.
  - destruct H as [HL H]. unfold zeros2 in HL. rewrite repeat_length in HL.
    split; [exact HL|]. intros k Hk.
    destruct (H k) as [Hin _]. apply Hin.
    + apply mem_range; lia.
    + now apply zeros2_nth.
  - intros M0 tn M0' _ Hb.
    apply bind_Ok_inv in Hb as (o & Ho & Hb).
    apply get_nat_inv in Ho.
    apply set2_inv in Hb as (row & n & Hrow & Hn & ->).
    assert (Htn : (tn < length M0)%nat)
      by (apply nth_error_Some; congruence).
    split; [apply length_upd|]. split.
    + intros k Hk. apply nth_error_upd_ne; auto.
    + rewrite nth_error_upd_eq by exact Htn. rewrite Hrow.
      intros [= ->]. eexists; split; [reflexivity|].
      exists o, n. unfold zeros in *. rewrite repeat_length in Hn. auto.
  - apply range_NoDup.
Qed.

(** *** [repetition] *)

Definition repeats (seq : list Z) (k : nat) : bool :=
  match k with
  | O => false
  | S k' =>
      match nth_error seq k, nth_error seq k' with
      | Some a, Some b => Z.eqb a b
      | _, _ => false
      end
  end.

Lemma zeros_nth n k : (k < n)%nat -> nth_error (zeros n) k = Some 0.
Proof. intros H. unfold zeros. now apply nth_error_repeat. Qed.

Lemma build_repetition_spec seq r :
  build_repetition seq = Ok r ->
  length r = length seq /\
  forall k, (k < length seq)%nat ->
    nth_error r k = Some (of_bool (repeats seq k)).
Proof.
  unfold build_repetition. intros H.
  apply (for_each_pointwise _
           (fun k x x' => x = Some 0 ->
              x' = Some (of_bool (repeats seq k))))
    in H.
  - destruct H as [HL H]. unfold zeros in HL. rewrite repeat_length in HL.
    split; [exact HL|]. intros k Hk.
    destruct (H k) as [Hin Hout].
    destruct k as [|k].
    + rewrite Hout by (rewrite mem_range; lia).
      apply (zeros_nth (length seq) 0%nat); lia.
    + apply Hin; [apply mem_range; lia|]. apply zeros_nth; lia.
  - intros r0 tn r0' Hin Hb. apply mem_range in Hin.
    destruct tn as [|tn]; [lia|].
    apply bind_Ok_inv in Hb as (a & Ha & Hb).
    apply bind_Ok_inv in Hb as (b & Hb0 & Hb).
    apply get_nat_inv in Ha.
    replace (Z.of_nat (S tn) - 1)%Z with (Z.of_nat tn) in Hb0 by lia.
    apply get_nat_inv in Hb0.
    unfold repeats. rewrite Ha, Hb0.
    destruct (a =? b)%Z.
    + apply set_Ok_inv in Hb as (n & Hn & ->).
      apply norm_index_of_nat_inv in Hn as [-> Hlt].
      split; [apply length_upd|]. split.
      * intros k Hk. apply nth_error_upd_ne; auto.
      * intros _. now apply nth_error_upd_eq.
    + inversion Hb; subst. repeat split; auto.
  - apply range_NoDup.
Qed.

(** *** [transitions] *)

Definition trans_row (seq : list Z) (no_obs : nat) (k : nat)
    (row : list Q) : Prop :=
  exists p, nth_error seq (k - 1) = Some p /\ (3 <= no_obs)%nat /\
    row = upd 2 (of_bool (p =? 2)%Z)
            (upd 1 (of_bool (p =? 1)%Z)
               (upd 0 (of_bool (p =? 0)%Z) (zeros no_obs))).

Lemma build_transitions_spec seq no_obs M :
  build_transitions seq no_obs = Ok M ->
  length M = length seq /\
  forall k, (k < length seq)%nat ->
    exists row, nth_error M k = Some row /\
      match k with
      | O => row = zeros no_obs
      | S _ => trans_row seq no_obs k row
      end.
Proof.
  unfold build_transitions. intros H.
  apply (for_each_pointwise _
           (fun k r r' => r = Some (zeros no_obs) ->
              exists row, r' = Some row /\ trans_row seq no_obs k row))
    in H.
  - destruct H as [HL H]. unfold zeros2 in HL. rewrite repeat_length in HL.
    split; [exact HL|]. intros k Hk.
    destruct (H k) as [Hin Hout].
    destruct k as [|k].
    + rewrite Hout by (rewrite mem_range; lia).
      exists (zeros no_obs). split; auto. apply zeros2_nth; lia.
    + apply Hin; [apply mem_range; lia|]. apply zeros2_nth; lia.
  - intros M0 tn M3 Hin Hb. apply mem_range in Hin.
    apply bind_Ok_inv in Hb as (p & Hp & Hb).
    replace (Z.of_nat tn - 1)%Z with (Z.of_nat (tn - 1)) in Hp by lia.
    apply get_nat_inv in Hp.
    apply bind_Ok_inv in Hb as (M1 & H0 & Hb).
    apply bind_Ok_inv in Hb as (M2 & H1 & H2).
    apply set2_inv in H0 as (row0 & n0 & Hr0 & Hn0 & ->).
    assert (Htn : (tn < length M0)%nat)
      by (apply nth_error_Some; congruence).
    apply set2_inv in H1 as (row1 & n1 & Hr1 & Hn1 & ->).
    rewrite nth_error_upd_eq in Hr1 by exact Htn.
    inversion Hr1; subst row1; clear Hr1.
    apply set2_inv in H2 as (row2 & n2 & Hr2 & Hn2 & ->).
    rewrite nth_error_upd_eq in Hr2 by (rewrite length_upd; exact Htn).
    inversion Hr2; subst row2; clear Hr2.
    rewrite !length_upd in *.
    apply (norm_index_of_nat_inv _ 0%nat) in Hn0 as [-> L0].
    apply (norm_index_of_nat_inv _ 1%nat) in Hn1 as [-> L1].
    apply (norm_index_of_nat_inv _ 2%nat) in Hn2 as [-> L2].
    split; [reflexivity|]. split.
    + intros k Hk. rewrite !nth_error_upd_ne; auto.
    + rewrite nth_error_upd_eq by (rewrite !length_upd; exact Htn).
      rewrite Hr0. intros [= ->].
      eexists; split; [reflexivity|]. exists p.
      unfold zeros in L2. rewrite repeat_length in L2. auto.
  - apply range_NoDup.
Qed.

End IndicatorTables.

(** ** Constructing the Dirichlet learner *)

Section Construction.
Import Py CatDir.
Local Open Scope Q_scope.

Variable np_exp : Q -> Q.

Lemma get_total {A} place (l : list A) n :
  (n < length l)%nat -> exists x, get place l (Z.of_nat n) = Ok x.
Proof.
  intros H. destruct (nth_error l n) as [x|] eqn:E.
  - exists x. now apply get_nat.
  - apply nth_error_None in E. lia.
Qed.

(** A loop whose turns succeed under an invariant succeeds. *)
Lemma for_each_total {S X} (body : S -> X -> res S) (I : S -> Prop) xs :
  forall s, I s ->
  (forall s x, In x xs -> I s -> exists s', body s x = Ok s' /\ I s') ->
  exists s', for_each body xs s = Ok s' /\ I s'.
Proof.
  induction xs as [|x xs IH]; simpl; intros s Hs Hstep; eauto.
  destruct (Hstep s x) as (s1 & -> & H1); auto. simpl.
  apply IH; auto.
Qed.

(** A loop whose turns succeed or raise [e] for a reason [F] of the
    element does one or the other. *)
Lemma for_each_cases {S X} (body : S -> X -> res S) (I : S -> Prop)
    (F : X -> Prop) e xs :
  forall s, I s ->
  (forall s x, In x xs -> I s ->
     (exists s', body s x = Ok s' /\ I s') \/ (body s x = Raise e /\ F x)) ->
  (exists s', for_each body xs s = Ok s' /\ I s') \/
  (for_each body xs s = Raise e /\ exists x, In x xs /\ F x).
Proof.
  induction xs as [|x xs IH]; simpl; intros s Hs Hstep; eauto.
  destruct (Hstep s x) as [(s1 & -> & H1) | [-> HF]]; auto; simpl.
  - destruct (IH s1 H1) as [(s' & Hs' & HI) | [Hr (y & Hy & HFy)]].
    + intros s0 x0 Hin. apply Hstep. now right.
    + left; eauto.
    + right; split; eauto.
  - right; eauto.
Qed.

Lemma Forall_upd {A} (P : A -> Prop) n x l :
  Forall P l -> P x -> Forall P (upd n x l).
Proof.
  intros H Hx. revert n; induction H; intros [|n]; simpl; auto.
Qed.

Lemma build_repetition_total seq : exists r, build_repetition seq = Ok r.
Proof.
  unfold build_repetition.
  destruct (for_each_total
    (fun (r : list Q) (tn : nat) =>
       bind (get "sequence" seq (Z.of_nat tn)) (fun a =>
       bind (get "sequence" seq (Z.of_nat tn - 1)) (fun b =>
       if (a =? b)%Z then set "repetition" r (Z.of_nat tn) 1 else Ok r)))
    (fun r => length r = length seq)
    (range 1 (length seq)) (zeros (length seq))) as (r & Hr & _); eauto.
  - unfold zeros. apply repeat_length.
  - intros r tn Hin Hlen. apply mem_range in Hin.
    destruct (get_total "sequence" seq tn) as (a & ->); [lia|]. simpl.
    replace (Z.of_nat tn - 1)%Z with (Z.of_nat (tn - 1)) by lia.
    destruct (get_total "sequence" seq (tn - 1)) as (b & ->); [lia|]. simpl.
    destruct (a =? b)%Z; eauto.
    rewrite set_nat by lia. eexists; split; eauto.
    now rewrite length_upd.
Qed.

Lemma build_stim_ind_cases seq no_obs :
  (exists M, build_stim_ind seq no_obs = Ok M) \/
  (build_stim_ind seq no_obs = Raise (IndexError "stim_ind") /\
   exists o, In o seq /\ norm_index no_obs o = None).
Proof.
  unfold build_stim_ind.
  destruct (for_each_cases
    (fun M (tn : nat) =>
       bind (get "sequence" seq (Z.of_nat tn)) (fun o =>
       set2 "stim_ind" M (Z.of_nat tn) o 1))
    (fun M => length M = length seq /\
              Forall (fun row => length row = no_obs) M)
    (fun tn => exists o, nth_error seq tn = Some o /\
                         norm_index no_obs o = None)
    (IndexError "stim_ind")
    (range 0 (length seq)) (zeros2 (length seq) no_obs))
    as [(M & HM & _) | (HM & tn & _ & o & Ho & Hn)]; eauto.
  - unfold zeros2, zeros. rewrite repeat_length. split; auto.
    apply Forall_forall. intros row Hrow. apply repeat_spec in Hrow.
    subst. apply repeat_length.
  - intros M tn Hin [Hlen Hrows]. apply mem_range in Hin.
    destruct (nth_error seq tn) as [o|] eqn:Ho;
      [|apply nth_error_None in Ho; lia].
    rewrite (get_nat _ _ _ _ Ho). simpl.
    destruct (nth_error M tn) as [row|] eqn:Hrow;
      [|apply nth_error_None in Hrow; lia].
    assert (Hlrow : length row = no_obs).
    { rewrite Forall_forall in Hrows. apply Hrows.
      eapply nth_error_In; eauto. }
    unfold set2. rewrite (get_nat _ _ _ _ Hrow). simpl.
    assert (Hs : set "stim_ind" row o 1
                 = match norm_index no_obs o with
                   | Some n => Ok (upd n 1 row)
                   | None => Raise (IndexError "stim_ind")
                   end) by (unfold set; now rewrite Hlrow).
    rewrite Hs.
    destruct (norm_index no_obs o) as [n|] eqn:Hn; simpl.
    + left. rewrite set_nat by lia. eexists; split; [reflexivity|].
      rewrite length_upd. split; auto.
      apply Forall_upd; auto. now rewrite length_upd.
    + right. split; eauto.
  - right. split; auto. exists o. split; auto.
    eapply nth_error_In; eauto.
Qed.

Lemma build_transitions_fails seq no_obs :
  (2 <= length seq)%nat -> (no_obs < 3)%nat ->
  build_transitions seq no_obs = Raise (IndexError "transitions").
Proof.
  intros HT Hn. unfold build_transitions.
  destruct seq as [|a [|b seq]]; simpl in HT; try lia.
  rewrite (range_split 1 (length (a :: b :: seq)) 1) by (simpl; lia).
  change (range 1 1) with (@nil nat).
  cbn [app for_each].
  change (Z.of_nat 1 - 1)%Z with (Z.of_nat 0).
  rewrite (get_nat "sequence" (a :: b :: seq) 0%nat a eq_refl).
  cbn [bind length].
  set (M := zeros2 (S (S (length seq))) no_obs).
  assert (Hrow : nth_error M 1 = Some (zeros no_obs))
    by (apply zeros2_nth; lia).
  change 1%Z with (Z.of_nat 1). change 0%Z with (Z.of_nat 0).
  change 2%Z with (Z.of_nat 2).
  assert (Hz : forall k, length (zeros k) = k)
    by (intros; apply repeat_length).
  destruct no_obs as [|[|[|n]]]; try lia.
  - rewrite (set2_beyond _ _ _ _ _ _ Hrow) by (rewrite Hz; lia).
    reflexivity.
  - rewrite (set2_nat _ _ _ _ _ _ Hrow) by (rewrite Hz; lia). cbn [bind].
    erewrite set2_beyond; [reflexivity| |].
    + apply nth_error_upd_eq. apply nth_error_Some. congruence.
    + rewrite length_upd, Hz. lia.
  - rewrite (set2_nat _ _ _ _ _ _ Hrow) by (rewrite Hz; lia). cbn [bind].
    erewrite set2_nat;
      [|apply nth_error_upd_eq; apply nth_error_Some; congruence
       |rewrite length_upd, Hz; lia].
    cbn [bind].
    erewrite set2_beyond; [reflexivity| |].
    + apply nth_error_upd_eq. rewrite length_upd.
      apply nth_error_Some. congruence.
    + rewrite !length_upd, Hz. lia.
Qed.

(** C10 (amended).  A sequence of at least two trials with fewer than
    three distinct values cannot be constructed, whatever the model
    type: the constructor raises an IndexError while it builds the
    transition-indicator table, unless an entry is already no column of
    the stimulus-indicator table, which then raises first.  So a
    learner is constructed only from a sequence of at most one trial or
    with at least three distinct values. *)
Theorem init_needs_three_categories seq hidden tau model_type verbose :
  ((2 <= length seq)%nat -> (n_unique seq < 3)%nat ->
   init np_exp seq hidden tau model_type verbose
   = Raise (IndexError "transitions")
   \/ (init np_exp seq hidden tau model_type verbose
       = Raise (IndexError "stim_ind") /\
       exists o, In o seq /\ norm_index (n_unique seq) o = None))
  /\
  (forall L, init np_exp seq hidden tau model_type verbose = Ok L ->
     (length seq <= 1)%nat \/ (3 <= n_unique seq)%nat).
Proof.
  assert (Hfail : (2 <= length seq)%nat -> (n_unique seq < 3)%nat ->
    init np_exp seq hidden tau model_type verbose
    = Raise (IndexError "transitions")
    \/ (init np_exp seq hidden tau model_type verbose
        = Raise (IndexError "stim_ind") /\
        exists o, In o seq /\ norm_index (n_unique seq) o = None)).
  { intros HT Hn. unfold init.
    destruct (build_stim_ind_cases seq (n_unique seq))
      as [(M & ->) | (-> & Ho)]; simpl; [left|right; auto].
    destruct (build_repetition_total seq) as (r & ->). simpl.
    now rewrite build_transitions_fails. }
  split; [exact Hfail|].
  intros L HL.
  destruct (le_lt_dec (length seq) 1) as [|HT]; [now left|].
  destruct (le_lt_dec 3 (n_unique seq)) as [|Hn]; [now right|].
  destruct (Hfail HT Hn) as [H|[H _]]; rewrite H in HL; discriminate.
Qed.

End Construction.

(** *** Stand-ins for the numeric library functions

    Rational functions with the few properties the theorems ask of
    [np.exp] (one at zero, positive) and any [np.log] and [kl_dir]; they
    serve to run the learner on concrete sequences. *)

Definition exp_standin (x : Q) : Q :=
  if Qle_bool 0 x then 1 + x + (1 # 2) * (x * x)
  else / (1 - x + (1 # 2) * (x * x)).

Definition log_standin (x : Q) : Q := 2 * (x - 1) / (x + 1).

Definition kl_standin (a b : CatDir.alphas_t) : Q :=
  CatDir.qsum
    (map (fun p : Q * Q => (fst p - snd p) * (fst p - snd p))
         (combine (CatDir.flatten a) (CatDir.flatten b))).

(** A single trial constructs although it has one distinct value. *)
Lemma single_trial_constructs :
  (exists L, CatDir.init exp_standin [0%Z] [0] 0 "SP" false = Py.Ok L)
  /\ (CatDir.n_unique [0%Z] < 3)%nat.
Proof.
  split.
  - eexists. vm_compute. reflexivity.
  - vm_compute. lia.
Qed.

Lemma init_needs_three_categories_witness :
  CatDir.init exp_standin [0; 1; 0; 1]%Z [0; 0; 0; 0] 0 "AP" false
  = Py.Raise (Py.IndexError "transitions")
  \/ (CatDir.init exp_standin [0; 1; 0; 1]%Z [0; 0; 0; 0] 0 "AP" false
      = Py.Raise (Py.IndexError "stim_ind") /\
      exists o, In o [0; 1; 0; 1]%Z /\
                Py.norm_index (CatDir.n_unique [0; 1; 0; 1]%Z) o = None).
Proof.
  apply (proj1 (init_needs_three_categories exp_standin
                  [0; 1; 0; 1]%Z [0; 0; 0; 0] 0 "AP" false)).
  - simpl. lia.
  - vm_compute. lia.
Defined.

(** ** Updating and scoring with the Dirichlet learner *)

Section Scoring.
Import Py CatDir.
Local Open Scope Q_scope.

Variable np_exp : Q -> Q.
Variable np_log : Q -> Q.
Variable kl_dir : alphas_t -> alphas_t -> Q.

(** What the constructor leaves in the object. *)
Lemma init_fields seq hid tau0 model_type vb L :
  init np_exp seq hid tau0 model_type vb = Ok L ->
  sequence L = seq /\ hidden L = hid /\ T L = length seq /\
  type L = model_type /\ tau L = tau0 /\ no_obs L = n_unique seq /\
  build_stim_ind seq (n_unique seq) = Ok (stim_ind L) /\
  build_repetition seq = Ok (repetition L) /\
  build_transitions seq (n_unique seq) = Ok (transitions L) /\
  exp_forgetting L = forgetting np_exp tau0 (length seq) /\
  stdout L = [] /\
  ((model_type = "SP"%string /\ alphas L = Vec (ones (n_unique seq))) \/
   (model_type = "AP"%string /\ alphas L = Vec (ones 2)) \/
   (model_type = "TP"%string /\
    alphas L = Mat (ones2 (n_unique seq) (n_unique seq)))).
Proof.
  unfold init. intros H.
  apply bind_Ok_inv in H as (stim & Hs & H).
  apply bind_Ok_inv in H as (rep & Hr & H).
  apply bind_Ok_inv in H as (trans & Ht & H).
  apply bind_Ok_inv in H as (a & Ha & H).
  inversion H; subst; simpl; clear H.
  repeat (split; [solve [auto]|]).
  destruct (String.eqb model_type "SP") eqn:E1.
  { apply String.eqb_eq in E1. inversion Ha; auto. }
  destruct (String.eqb model_type "AP") eqn:E2.
  { apply String.eqb_eq in E2. inversion Ha; auto. }
  destruct (String.eqb model_type "TP") eqn:E3.
  { apply String.eqb_eq in E3. inversion Ha; auto. }
  discriminate.
Qed.

(** The fields no update writes. *)
Definition same_tables (L L' : learner) : Prop :=
  sequence L' = sequence L /\ hidden L' = hidden L /\ T L' = T L /\
  type L' = type L /\ no_obs L' = no_obs L /\
  stim_ind L' = stim_ind L /\ repetition L' = repetition L /\
  transitions L' = transitions L /\ exp_forgetting L' = exp_forgetting L.

Lemma same_tables_refl L : same_tables L L.
Proof. repeat split. Qed.

Lemma same_tables_trans L1 L2 L3 :
  same_tables L1 L2 -> same_tables L2 L3 -> same_tables L1 L3.
Proof.
  unfold same_tables. intros H1 H2.
  decompose [and] H1. decompose [and] H2. repeat split; congruence.
Qed.

Lemma update_posterior_tables L : same_tables L (update_posterior L).
Proof.
  unfold update_posterior.
  repeat match goal with
         | |- context [if ?b then _ else _] => destruct b
         end; repeat split.
Qed.

Lemma with_t_tables L tn : same_tables L (with_t L tn).
Proof. repeat split. Qed.

(** The state [update_posterior] computes at trial [tn]: it is
    recomputed from the tables, not from the previous state. *)
Definition alphas_at (L : learner) (tn : nat) : alphas_t :=
  alphas (update_posterior (with_t L tn)).

Lemma alphas_at_unfold L tn :
  alphas_at L tn =
  let n := S tn in
  let w := last_n n (exp_forgetting L) in
  if String.eqb (type L) "SP" then
    Vec (map (fun i => 1 + dot w (column (first_n n (stim_ind L)) i))
             (range 0 (no_obs L)))
  else if String.eqb (type L) "AP" then
    if Nat.eqb tn 0 then Vec [1; 1]
    else Vec [ 1 + dot w (first_n n (repetition L));
               1 + dot w (one_minus (first_n n (repetition L))) ]
  else if String.eqb (type L) "TP" then
    if Nat.eqb tn 0 then Mat (ones2 (no_obs L) (no_obs L))
    else Mat (map (fun i =>
                map (fun j =>
                       1 + dot w
                             (times (column (first_n n (stim_ind L)) j)
                                    (column (first_n n (transitions L)) i)))
                    (range 0 (no_obs L)))
                (range 0 (no_obs L)))
  else alphas L.
Proof.
  unfold alphas_at, update_posterior, with_t. simpl.
  repeat match goal with
         | |- context [if ?b then _ else _] => destruct b
         end; reflexivity.
Qed.

Lemma alphas_at_tables L L' tn :
  same_tables L L' -> alphas L' = alphas L \/ type L = "SP"%string
    \/ type L = "AP"%string \/ type L = "TP"%string ->
  alphas_at L' tn = alphas_at L tn.
Proof.
  unfold same_tables. intros H Ha. decompose [and] H.
  rewrite !alphas_at_unfold.
  repeat match goal with H : _ = _ |- _ => rewrite H; clear H end.
  destruct Ha as [Ha | [Ha | [Ha | Ha]]]; rewrite Ha; reflexivity.
Qed.

(** *** Sums, dot products and counts *)

Lemma qsum_app a b : qsum (a ++ b) == qsum a + qsum b.
Proof.
  induction a as [|x a IH]; simpl; [ring|]. rewrite IH. ring.
Qed.

(** With unit weights the dot product is the plain sum. *)
Lemma dot_unit_weights w c :
  Forall (fun x => x == 1) w -> length w = length c ->
  dot w c == qsum c.
Proof.
  unfold dot. intros Hw. revert c.
  induction Hw as [|x w Hx Hw IH]; intros [|y c] Hl; simpl in *;
    try discriminate; [reflexivity|].
  rewrite IH by lia. rewrite Hx. ring.
Qed.

Lemma last_n_length {A} n (l : list A) :
  length (last_n n l) = Nat.min n (length l).
Proof. unfold last_n. rewrite length_skipn. lia. Qed.

Lemma last_n_Forall {A} (P : A -> Prop) n l :
  Forall P l -> Forall P (last_n n l).
Proof.
  intros H. unfold last_n. rewrite <- (firstn_skipn (length l - n) l) in H.
  apply Forall_app in H. apply H.
Qed.

Lemma first_n_as_map {A} (d : A) n l :
  (n <= length l)%nat ->
  first_n n l = map (fun k => nth k l d) (seq 0 n).
Proof.
  unfold first_n. revert l; induction n as [|n IH]; intros l H; simpl.
  - reflexivity.
  - destruct l as [|x l]; simpl in *; [lia|].
    f_equal. rewrite <- seq_shift, map_map. apply IH. lia.
Qed.

Lemma first_n_length {A} n (l : list A) :
  (n <= length l)%nat -> length (first_n n l) = n.
Proof. intros H. unfold first_n. rewrite length_firstn. lia. Qed.

(** The sum of a 0/1 indicator is the number of its ones. *)
Definition count_in (p : nat -> bool) (xs : list nat) : Z :=
  Z.of_nat (length (filter p xs)).

Lemma qsum_indicator (p : nat -> bool) xs :
  qsum (map (fun k => of_bool (p k)) xs) == inject_Z (count_in p xs).
Proof.
  unfold count_in. induction xs as [|x xs IH]; simpl; [reflexivity|].
  rewrite IH. destruct (p x); simpl length.
  - rewrite Nat2Z.inj_succ, <- Z.add_1_l, inject_Z_plus. reflexivity.
  - simpl. ring.
Qed.

Lemma forgetting_unit T0 :
  np_exp 0 == 1 ->
  Forall (fun x => x == 1) (forgetting np_exp 0 T0).
Proof.
  intros H0. unfold forgetting. apply Forall_forall.
  intros x Hx. apply in_map_iff in Hx as (k & <- & _).
  exact H0.
Qed.

Lemma forgetting_length tau0 T0 :
  length (forgetting np_exp tau0 T0) = T0.
Proof.
  unfold forgetting. now rewrite length_map, length_rev, length_seq.
Qed.

Lemma Forall2_map_pointwise {X} (f g : X -> Q) xs :
  (forall x, In x xs -> f x == g x) ->
  Forall2 Qeq (map f xs) (map g xs).
Proof.
  induction xs as [|x xs IH]; simpl; intros H; constructor; auto.
Qed.

Lemma Forall2_map_rows {X} (f g : X -> list Q) xs :
  (forall x, In x xs -> Forall2 Qeq (f x) (g x)) ->
  Forall2 (Forall2 Qeq) (map f xs) (map g xs).
Proof.
  induction xs as [|x xs IH]; simpl; intros H; constructor; auto.
Qed.

Lemma nth_upd_zeros n i no :
  (n < no)%nat ->
  nth i (upd n 1 (zeros no)) 0 = of_bool (Nat.eqb n i).
Proof.
  unfold zeros. revert n i; induction no as [|no IH]; intros n i H;
    [lia|].
  destruct n as [|n], i as [|i]; simpl; auto.
  - destruct i; [|rewrite nth_repeat]; try reflexivity.
    destruct no; reflexivity.
  - apply IH. lia.
Qed.


(** *** The plain running counts of the three indicators

    Written from the sequence alone: trial [k] shows category [i];
    trial [k] repeats trial [k-1]; trial [k] moves from [i] to [j]. *)

Definition shows (sq : list Z) (i k : nat) : bool :=
  match nth_error sq k with
  | Some o => Z.eqb o (Z.of_nat i)
  | None => false
  end.

Definition moves (sq : list Z) (i j k : nat) : bool :=
  match k with
  | O => false
  | S k' => shows sq i k' && shows sq j k
  end.

(** The number of trials in [0..t] at which [p] holds. *)
Definition count_upto (p : nat -> bool) (t0 : nat) : Z :=
  count_in p (seq 0 (S t0)).

(** One plus the plain count, per variant. *)
Definition plain_count (model_type : string) (sq : list Z) (t0 : nat)
  : alphas_t :=
  let n := n_unique sq in
  if String.eqb model_type "SP" then
    Vec (map (fun i => inject_Z (1 + count_upto (shows sq i) t0))
             (range 0 n))
  else if String.eqb model_type "AP" then
    Vec [ inject_Z (1 + count_upto (repeats sq) t0);
          inject_Z (1 + count_upto (fun k => negb (repeats sq k)) t0) ]
  else
    Mat (map (fun i =>
           map (fun j => inject_Z (1 + count_upto (moves sq i j) t0))
               (range 0 n))
           (range 0 n)).

(** Equality of states, entry by entry. *)
Definition alphas_eq (a b : alphas_t) : Prop :=
  match a, b with
  | Vec u, Vec v => Forall2 Qeq u v
  | Mat m, Mat n => Forall2 (Forall2 Qeq) m n
  | _, _ => False
  end.

(** Observations are the categories 0, 1 and 2 (catch). *)
Definition categories (sq : list Z) : Prop :=
  Forall (fun o => (0 <= o <= 2)%Z) sq.

Lemma norm_index_nonneg_inv len o n :
  (0 <= o)%Z -> norm_index len o = Some n -> n = Z.to_nat o.
Proof.
  intros Ho. unfold norm_index.
  destruct ((0 <=? o)%Z && (o <? Z.of_nat len)%Z); [now intros [= <-]|].
  destruct ((- Z.of_nat len <=? o)%Z && (o <? 0)%Z) eqn:E; [|discriminate].
  apply andb_prop in E as [_ E]. lia.
Qed.

Lemma stim_entry sq M i k :
  build_stim_ind sq (n_unique sq) = Ok M -> categories sq ->
  (k < length sq)%nat ->
  nth i (nth k M []) 0 = of_bool (shows sq i k).
Proof.
  intros HM Hc Hk.
  destruct (build_stim_ind_spec _ _ _ HM) as [_ H].
  destruct (H k Hk) as (row & Hrow & o & n & Ho & Hn & ->).
  rewrite (nth_error_nth _ _ _ Hrow).
  rewrite nth_upd_zeros by (eapply norm_index_bound; eauto).
  unfold shows. rewrite Ho. f_equal.
  unfold categories in Hc. rewrite Forall_forall in Hc.
  assert (Hr : (0 <= o <= 2)%Z) by (apply Hc; eapply nth_error_In; eauto).
  apply norm_index_nonneg_inv in Hn; [|lia]. subst n.
  destruct (Nat.eqb_spec (Z.to_nat o) i), (Z.eqb_spec o (Z.of_nat i));
    auto; lia.
Qed.

Lemma repetition_entry sq r k :
  build_repetition sq = Ok r -> (k < length sq)%nat ->
  nth k r 0 = of_bool (repeats sq k).
Proof.
  intros Hr Hk. destruct (build_repetition_spec _ _ Hr) as [_ H].
  apply nth_error_nth. auto.
Qed.

Lemma transitions_entry sq M i k :
  build_transitions sq (n_unique sq) = Ok M -> categories sq ->
  (k < length sq)%nat ->
  nth i (nth k M []) 0
  = of_bool (match k with O => false | S k' => shows sq i k' end).
Proof.
  intros HM Hc Hk.
  destruct (build_transitions_spec _ _ _ HM) as [_ H].
  destruct (H k Hk) as (row & Hrow & Hspec).
  rewrite (nth_error_nth _ _ _ Hrow).
  destruct k as [|k].
  - subst row. unfold zeros. now rewrite nth_repeat.
  - destruct Hspec as (p & Hp & Hno & ->).
    replace (S k - 1)%nat with k in Hp by lia.
    unfold shows. rewrite Hp.
    unfold categories in Hc. rewrite Forall_forall in Hc.
    assert (Hr : (0 <= p <= 2)%Z) by (apply Hc; eapply nth_error_In; eauto).
    unfold zeros.
    destruct (n_unique sq) as [|[|[|no]]]; try lia. simpl repeat.
    destruct i as [|[|[|i]]]; simpl nth; try reflexivity.
    rewrite nth_repeat.
    destruct (Z.eqb_spec p (Z.of_nat (S (S (S i))))); [lia|reflexivity].
Qed.

Lemma column_first_n M i n (f : nat -> Q) :
  (n <= length M)%nat ->
  (forall k, (k < n)%nat -> nth i (nth k M []) 0 = f k) ->
  column (first_n n M) i = map f (seq 0 n).
Proof.
  intros Hn Hf. unfold column.
  rewrite (first_n_as_map [] n M Hn), map_map.
  apply map_ext_in. intros k Hk. apply in_seq in Hk. apply Hf. lia.
Qed.

Lemma vector_first_n (r : list Q) n (f : nat -> Q) :
  (n <= length r)%nat ->
  (forall k, (k < n)%nat -> nth k r 0 = f k) ->
  first_n n r = map f (seq 0 n).
Proof.
  intros Hn Hf. rewrite (first_n_as_map 0 n r Hn).
  apply map_ext_in. intros k Hk. apply in_seq in Hk. apply Hf. lia.
Qed.


Lemma map_const_repeat {A} (x : A) a n :
  map (fun _ : nat => x) (seq a n) = repeat x n.
Proof.
  revert a; induction n as [|n IH]; intros a; simpl; [reflexivity|].
  now rewrite IH.
Qed.

Lemma Forall2_Qeq_refl l : Forall2 Qeq l l.
Proof. induction l; constructor; auto. reflexivity. Qed.

Lemma times_map (f g : nat -> Q) xs :
  times (map f xs) (map g xs) = map (fun k => f k * g k) xs.
Proof.
  unfold times. induction xs as [|x xs IH]; simpl; [reflexivity|].
  now rewrite IH.
Qed.

Lemma one_minus_map (f : nat -> Q) xs :
  one_minus (map f xs) = map (fun k => 1 - f k) xs.
Proof. unfold one_minus. now rewrite map_map. Qed.

(** C7 (amended).  With [tau = 0] the state after [update_posterior] at
    trial [t] is one plus the plain running count of the variant's
    indicator over trials [0..t], an integer: occurrences of each
    category (SP), repetitions and non-repetitions, trial 0 counting as
    a non-repetition (AP, for [t >= 1]), and moves from [i] to [j] (TP).
    For AP at [t = 0] the update resets the state to the prior
    [[1, 1]] instead. *)
Theorem dirichlet_state_is_plain_count sq hid model_type vb L t0 :
  np_exp 0 == 1 ->
  init np_exp sq hid 0 model_type vb = Ok L ->
  categories sq -> (t0 < length sq)%nat ->
  alphas_eq (alphas (update_posterior (with_t L t0)))
    (if (String.eqb model_type "AP" && Nat.eqb t0 0)%bool
     then Vec [1; 1]
     else plain_count model_type sq t0).
Proof.
  intros Hexp Hinit Hcat Ht.
  destruct (init_fields _ _ _ _ _ _ Hinit)
    as (Hsq & _ & HT & Hty & _ & Hno & Hstim & Hrep & Htrans & Hw & _ & Hmt).
  change (alphas (update_posterior (with_t L t0))) with (alphas_at L t0).
  rewrite alphas_at_unfold. cbv zeta.
  rewrite Hw, Hno.
  set (w := last_n (S t0) (forgetting np_exp 0 (length sq))).
  assert (Hw1 : Forall (fun x => x == 1) w)
    by (apply last_n_Forall, forgetting_unit, Hexp).
  assert (Hwl : length w = S t0).
  { unfold w. rewrite last_n_length, forgetting_length. lia. }
  destruct (build_stim_ind_spec _ _ _ Hstim) as [Lstim _].
  destruct (build_repetition_spec _ _ Hrep) as [Lrep _].
  destruct (build_transitions_spec _ _ _ Htrans) as [Ltrans _].
  assert (Hcol_stim : forall j,
            column (first_n (S t0) (stim_ind L)) j
            = map (fun k => of_bool (shows sq j k)) (seq 0 (S t0))).
  { intros j. apply column_first_n; [lia|].
    intros k Hk. apply stim_entry; auto. lia. }
  assert (Hvec_rep :
            first_n (S t0) (repetition L)
            = map (fun k => of_bool (repeats sq k)) (seq 0 (S t0))).
  { apply vector_first_n; [lia|].
    intros k Hk. apply repetition_entry; auto. lia. }
  assert (Hcol_trans : forall i,
            column (first_n (S t0) (transitions L)) i
            = map (fun k => of_bool (match k with
                                     | O => false
                                     | S k' => shows sq i k'
                                     end)) (seq 0 (S t0))).
  { intros i. apply column_first_n; [lia|].
    intros k Hk. apply transitions_entry; auto. lia. }
  rewrite Hty.
  destruct Hmt as [[-> _] | [[-> _] | [-> _]]]; simpl String.eqb; cbv iota.
  - (* SP *)
    simpl andb. cbv iota. unfold plain_count. simpl String.eqb. cbv iota.
    apply Forall2_map_pointwise. intros i _.
    rewrite Hcol_stim.
    rewrite dot_unit_weights
      by (auto; rewrite Hwl, length_map, length_seq; reflexivity).
    rewrite qsum_indicator. unfold count_upto.
    rewrite inject_Z_plus. reflexivity.
  - (* AP *)
    simpl andb. destruct (Nat.eqb t0 0); [apply Forall2_Qeq_refl|].
    unfold plain_count. simpl String.eqb. cbv iota.
    rewrite Hvec_rep, one_minus_map.
    constructor; [|constructor; [|constructor]].
    + rewrite dot_unit_weights
        by (auto; rewrite Hwl, length_map, length_seq; reflexivity).
      rewrite qsum_indicator. unfold count_upto.
      rewrite inject_Z_plus. reflexivity.
    + rewrite dot_unit_weights
        by (auto; rewrite Hwl, length_map, length_seq; reflexivity).
      rewrite (map_ext _ (fun k => of_bool (negb (repeats sq k))))
        by (intros k; destruct (repeats sq k); reflexivity).
      rewrite qsum_indicator. unfold count_upto.
      rewrite inject_Z_plus. reflexivity.
  - (* TP *)
    simpl andb. cbv iota. unfold plain_count. simpl String.eqb. cbv iota.
    destruct (Nat.eqb_spec t0 0) as [-> | Hne].
    + unfold ones2, ones, range. rewrite Nat.sub_0_r.
      rewrite <- (map_const_repeat (repeat 1 (n_unique sq)) 0).
      apply Forall2_map_rows. intros i _.
      rewrite <- (map_const_repeat 1 0).
      apply Forall2_map_pointwise. intros j _. reflexivity.
    + apply Forall2_map_rows. intros i _.
      apply Forall2_map_pointwise. intros j _.
      rewrite Hcol_stim, Hcol_trans, times_map.
      rewrite dot_unit_weights
        by (auto; rewrite Hwl, length_map, length_seq; reflexivity).
      rewrite (map_ext _ (fun k => of_bool (moves sq i j k))).
      2:{ intros [|k]; simpl moves.
          - destruct (shows sq j 0); reflexivity.
          - destruct (shows sq j (S k)), (shows sq i k); reflexivity. }
      rewrite qsum_indicator. unfold count_upto.
      rewrite inject_Z_plus. reflexivity.
Qed.


(** *** The predictive distribution *)

Definition tolerance : Q := 1 # 1000000000.

(** Sums along axis 0 are one within the tolerance. *)
Definition sums_to_one (a : alphas_t) : Prop :=
  match a with
  | Vec p => Qabs (qsum p - 1) <= tolerance
  | Mat m => m <> [] /\
             Forall (fun s => Qabs (s - 1) <= tolerance) (col_sums m)
  end.

(** A state with at least one category and positive pseudo-counts. *)
Definition well_formed (a : alphas_t) : Prop :=
  match a with
  | Vec v => v <> [] /\ Forall (fun x => 0 < x) v
  | Mat m => exists n, (1 <= n)%nat /\ m <> [] /\
               Forall (fun row => length row = n /\
                                  Forall (fun x => 0 < x) row) m
  end.

Lemma qsum_scale (v : list Q) s :
  qsum (map (fun x => x / s) v) == qsum v / s.
Proof.
  unfold Qdiv. induction v as [|x v IH]; simpl; [ring|].
  rewrite IH. ring.
Qed.

Lemma qsum_pos v : v <> [] -> Forall (fun x => 0 < x) v -> 0 < qsum v.
Proof.
  intros Hne H. destruct H as [|x v Hx Hv]; [congruence|]. simpl.
  clear Hne. apply Qlt_le_trans with (x + 0); [now rewrite Qplus_0_r|].
  apply Qplus_le_r. induction Hv as [|y v Hy Hv IH]; simpl; [lra|].
  lra.
Qed.

Lemma within_tolerance_of_one s : s == 1 -> Qabs (s - 1) <= tolerance.
Proof. intros ->. vm_compute. discriminate. Qed.

Lemma column_map_div m cs j :
  column (map (fun row => div_rows row cs) m) j
  = map (fun row => nth j (div_rows row cs) 0) m.
Proof. unfold column. now rewrite map_map. Qed.

Lemma nth_div_rows row cs j :
  (j < length row)%nat -> (j < length cs)%nat ->
  nth j (div_rows row cs) 0 = nth j row 0 / nth j cs 0.
Proof.
  unfold div_rows. revert cs j.
  induction row as [|x row IH]; intros [|c cs] [|j] H1 H2; simpl in *;
    try lia; auto.
  apply IH; lia.
Qed.

Lemma col_sums_nth m row0 j :
  hd_error m = Some row0 -> (j < length row0)%nat ->
  nth j (col_sums m) 0 = qsum (column m j).
Proof.
  intros Hm Hj. destruct m as [|r m]; [discriminate|].
  inversion Hm; subst. unfold col_sums, range.
  rewrite Nat.sub_0_r.
  rewrite (nth_indep _ 0 (qsum (column (row0 :: m) 0)))
    by (rewrite length_map, length_seq; exact Hj).
  rewrite (map_nth (fun j => qsum (column (row0 :: m) j))).
  now rewrite seq_nth.
Qed.

Lemma col_sums_length m row0 :
  hd_error m = Some row0 -> length (col_sums m) = length row0.
Proof.
  intros Hm. destruct m as [|r m]; [discriminate|].
  inversion Hm; subst. unfold col_sums, range.
  now rewrite length_map, length_seq, Nat.sub_0_r.
Qed.

Lemma column_pos m n j :
  m <> [] ->
  Forall (fun row => length row = n /\ Forall (fun x => 0 < x) row) m ->
  (j < n)%nat -> 0 < qsum (column m j).
Proof.
  intros Hne H Hj. apply qsum_pos.
  - unfold column. destruct m; [congruence|discriminate].
  - unfold column. apply Forall_forall. intros x Hx.
    apply in_map_iff in Hx as (row & <- & Hrow).
    rewrite Forall_forall in H. destruct (H row Hrow) as [Hl Hp].
    rewrite Forall_forall in Hp. apply Hp. apply nth_In. lia.
Qed.

(** Normalising a well-formed state along axis 0 gives sums of one. *)
Lemma over_axis0_sums a : well_formed a -> sums_to_one (over_axis0 a).
Proof.
  destruct a as [v|m]; simpl.
  - intros [Hne Hpos]. apply within_tolerance_of_one.
    rewrite qsum_scale. pose proof (qsum_pos v Hne Hpos).
    field. lra.
  - intros (n & Hn & Hne & Hrows).
    destruct m as [|row0 mtl] eqn:Em; [congruence|]. rewrite <- Em in *.
    assert (Hhd : hd_error m = Some row0) by now rewrite Em.
    assert (Hl0 : length row0 = n).
    { rewrite Forall_forall in Hrows. apply Hrows. rewrite Em. now left. }
    split; [rewrite Em; discriminate|].
    set (cs := col_sums m).
    assert (Hcs : length cs = n)
      by (unfold cs; rewrite (col_sums_length _ _ Hhd); exact Hl0).
    set (m' := map (fun row => div_rows row cs) m).
    assert (Hhd' : hd_error m' = Some (div_rows row0 cs))
      by (unfold m'; now rewrite Em).
    assert (Hl0' : length (div_rows row0 cs) = n).
    { unfold div_rows. rewrite length_map, length_combine. lia. }
    apply Forall_forall. intros s Hs.
    apply (In_nth _ _ 0) in Hs as (j & Hj & <-).
    rewrite (col_sums_length _ _ Hhd'), Hl0' in Hj.
    rewrite (col_sums_nth _ _ _ Hhd') by lia.
    apply within_tolerance_of_one.
    unfold m'. rewrite column_map_div.
    rewrite (map_ext_in _ (fun row => nth j row 0 / nth j cs 0)).
    2:{ intros row Hrow. rewrite Forall_forall in Hrows.
        destruct (Hrows row Hrow) as [Hl _].
        apply nth_div_rows; lia. }
    change (map (fun row => nth j row 0 / nth j cs 0) m)
      with (map (fun x => x / nth j cs 0) (map (fun row => nth j row 0) m))
      || rewrite <- (map_map (fun row => nth j row 0)
                             (fun x => x / nth j cs 0)).
    rewrite qsum_scale.
    unfold cs. rewrite (col_sums_nth _ _ _ Hhd) by lia.
    fold (column m j).
    pose proof (column_pos m n j Hne Hrows Hj).
    field. lra.
Qed.


Lemma forgetting_pos tau0 T0 :
  (forall x, 0 < np_exp x) ->
  Forall (fun x => 0 <= x) (forgetting np_exp tau0 T0).
Proof.
  intros H. unfold forgetting. apply Forall_forall.
  intros x Hx. apply in_map_iff in Hx as (k & <- & _).
  apply Qlt_le_weak, H.
Qed.

Lemma dot_nonneg w c :
  Forall (fun x => 0 <= x) w -> Forall (fun x => 0 <= x) c ->
  0 <= dot w c.
Proof.
  unfold dot. intros Hw. revert c.
  induction Hw as [|x w Hx Hw IH]; intros c Hc; simpl; [lra|].
  destruct Hc as [|y c Hy Hc]; simpl; [lra|].
  specialize (IH c Hc). pose proof (Qmult_le_0_compat x y Hx Hy). lra.
Qed.

Lemma nth_nonneg row i : Forall (fun x => 0 <= x) row -> 0 <= nth i row 0.
Proof.
  intros H. destruct (nth_in_or_default i row 0) as [Hin | ->]; [|lra].
  rewrite Forall_forall in H. auto.
Qed.

Lemma In_first_n {A} (x : A) n l : In x (firstn n l) -> In x l.
Proof.
  intros H. rewrite <- (firstn_skipn n l). apply in_or_app. now left.
Qed.

Lemma column_nonneg M n i :
  Forall (Forall (fun x => 0 <= x)) M ->
  Forall (fun x => 0 <= x) (column (first_n n M) i).
Proof.
  intros H. unfold column, first_n. apply Forall_forall.
  intros x Hx. apply in_map_iff in Hx as (row & <- & Hrow).
  apply nth_nonneg. rewrite Forall_forall in H. apply H.
  eapply In_first_n; eauto.
Qed.

Lemma times_nonneg a b :
  Forall (fun x => 0 <= x) a -> Forall (fun x => 0 <= x) b ->
  Forall (fun x => 0 <= x) (times a b).
Proof.
  unfold times. intros Ha. revert b.
  induction Ha as [|x a Hx Ha IH]; intros b Hb; simpl; [constructor|].
  destruct Hb as [|y b Hy Hb]; simpl; constructor; auto.
  simpl. now apply Qmult_le_0_compat.
Qed.

Lemma zeros_nonneg n : Forall (fun x => 0 <= x) (zeros n).
Proof.
  unfold zeros. apply Forall_forall. intros x Hx.
  apply repeat_spec in Hx. subst. lra.
Qed.

Lemma of_bool_range b : 0 <= of_bool b /\ of_bool b <= 1.
Proof. destruct b; simpl; lra. Qed.

Lemma stim_ind_nonneg sq M :
  build_stim_ind sq (n_unique sq) = Ok M ->
  Forall (Forall (fun x => 0 <= x)) M.
Proof.
  intros HM. destruct (build_stim_ind_spec _ _ _ HM) as [HL H].
  apply Forall_forall. intros row Hrow.
  apply In_nth_error in Hrow as (k & Hk).
  assert (Hlt : (k < length sq)%nat)
    by (rewrite <- HL; apply nth_error_Some; congruence).
  destruct (H k Hlt) as (row' & Hrow' & o & n & _ & _ & ->).
  rewrite Hk in Hrow'. inversion Hrow'; subst.
  apply Forall_upd; [apply zeros_nonneg|lra].
Qed.

Lemma transitions_nonneg sq M :
  build_transitions sq (n_unique sq) = Ok M ->
  Forall (Forall (fun x => 0 <= x)) M.
Proof.
  intros HM. destruct (build_transitions_spec _ _ _ HM) as [HL H].
  apply Forall_forall. intros row Hrow.
  apply In_nth_error in Hrow as (k & Hk).
  assert (Hlt : (k < length sq)%nat)
    by (rewrite <- HL; apply nth_error_Some; congruence).
  destruct (H k Hlt) as (row' & Hrow' & Hspec).
  rewrite Hk in Hrow'. inversion Hrow'; subst row'.
  destruct k as [|k].
  - subst. apply zeros_nonneg.
  - destruct Hspec as (p & _ & _ & ->).
    repeat apply Forall_upd; try apply zeros_nonneg; apply of_bool_range.
Qed.

Lemma repetition_range sq r :
  build_repetition sq = Ok r ->
  Forall (fun x => 0 <= x /\ x <= 1) r.
Proof.
  intros Hr. destruct (build_repetition_spec _ _ Hr) as [HL H].
  apply Forall_forall. intros x Hx.
  apply In_nth_error in Hx as (k & Hk).
  assert (Hlt : (k < length sq)%nat)
    by (rewrite <- HL; apply nth_error_Some; congruence).
  rewrite (H k Hlt) in Hk. inversion Hk. apply of_bool_range.
Qed.

Lemma n_unique_pos sq : sq <> [] -> (1 <= n_unique sq)%nat.
Proof.
  intros H. destruct sq as [|x sq]; [congruence|].
  unfold n_unique.
  assert (Hin : In x (nodup Z.eq_dec (x :: sq))) by (apply nodup_In; now left).
  destruct (nodup Z.eq_dec (x :: sq)); [destruct Hin|simpl; lia].
Qed.

Lemma range_nonempty n : (1 <= n)%nat -> range 0 n <> [].
Proof. unfold range. destruct n; [lia|]. simpl. discriminate. Qed.

Lemma range_length a b : length (range a b) = (b - a)%nat.
Proof. unfold range. apply length_seq. Qed.

(** Every state the update computes is well formed. *)
Lemma alphas_at_well_formed sq hid tau0 model_type vb L t0 :
  (forall x, 0 < np_exp x) ->
  init np_exp sq hid tau0 model_type vb = Ok L ->
  (t0 < length sq)%nat ->
  well_formed (alphas_at L t0).
Proof.
  intros Hexp Hinit Ht.
  destruct (init_fields _ _ _ _ _ _ Hinit)
    as (Hsq & _ & HT & Hty & _ & Hno & Hstim & Hrep & Htrans & Hw & _ & Hmt).
  assert (Hn : (1 <= n_unique sq)%nat)
    by (apply n_unique_pos; destruct sq; [simpl in Ht; lia|discriminate]).
  rewrite alphas_at_unfold. cbv zeta. rewrite Hw, Hno, Hty.
  set (w := last_n (S t0) (forgetting np_exp tau0 (length sq))).
  assert (Hw0 : Forall (fun x => 0 <= x) w)
    by (apply last_n_Forall, forgetting_pos, Hexp).
  pose proof (stim_ind_nonneg _ _ Hstim) as Hs0.
  pose proof (transitions_nonneg _ _ Htrans) as Ht0.
  pose proof (repetition_range _ _ Hrep) as Hr0.
  assert (Hones : forall n, Forall (fun x => 0 < x) (ones n)).
  { intros n. unfold ones. apply Forall_forall. intros x Hx.
    apply repeat_spec in Hx. subst. lra. }
  destruct Hmt as [[-> _] | [[-> _] | [-> _]]]; simpl String.eqb; cbv iota.
  - unfold well_formed. split.
    + intros H. apply map_eq_nil in H. now apply range_nonempty in H.
    + apply Forall_forall. intros x Hx.
      apply in_map_iff in Hx as (i & <- & _).
      pose proof (dot_nonneg w _ Hw0
                    (column_nonneg (stim_ind L) (S t0) i Hs0)). lra.
  - destruct (Nat.eqb t0 0); unfold well_formed.
    + split; [discriminate|]. repeat constructor.
    + split; [discriminate|].
      assert (H1 : Forall (fun x => 0 <= x) (first_n (S t0) (repetition L))).
      { unfold first_n. apply Forall_forall. intros x Hx.
        apply In_first_n in Hx. rewrite Forall_forall in Hr0.
        apply (Hr0 x Hx). }
      assert (H2 : Forall (fun x => 0 <= x)
                     (one_minus (first_n (S t0) (repetition L)))).
      { unfold one_minus, first_n. apply Forall_forall. intros x Hx.
        apply in_map_iff in Hx as (y & <- & Hy).
        apply In_first_n in Hy. rewrite Forall_forall in Hr0.
        destruct (Hr0 y Hy). lra. }
      pose proof (dot_nonneg w _ Hw0 H1).
      pose proof (dot_nonneg w _ Hw0 H2).
      repeat constructor; lra.
  - destruct (Nat.eqb t0 0); unfold well_formed.
    + exists (n_unique sq). split; [exact Hn|]. split.
      * unfold ones2. destruct (n_unique sq); [lia|discriminate].
      * unfold ones2. apply Forall_forall. intros row Hrow.
        apply repeat_spec in Hrow. subst. split; [apply repeat_length|].
        apply Hones.
    + exists (n_unique sq). split; [exact Hn|]. split.
      * intros H. apply map_eq_nil in H. now apply range_nonempty in H.
      * apply Forall_forall. intros row Hrow.
        apply in_map_iff in Hrow as (i & <- & _). split.
        -- now rewrite length_map, range_length, Nat.sub_0_r.
        -- apply Forall_forall. intros x Hx.
           apply in_map_iff in Hx as (j & <- & _).
           pose proof (dot_nonneg w _ Hw0
                         (times_nonneg _ _
                            (column_nonneg (stim_ind L) (S t0) j Hs0)
                            (column_nonneg (transitions L) (S t0) i Ht0))).
           lra.
Qed.

(** C8.  At every trial and for every variant, the predictive
    distribution (the state normalised along axis 0, the axis
    [posterior_predictive] sums over) sums to one within 1e-9: the
    vector of SP and AP as a whole, the matrix of TP along that axis for
    every position of the other one. *)
Theorem predictive_sums_to_one sq hid tau0 model_type vb L t0 :
  (forall x, 0 < np_exp x) ->
  init np_exp sq hid tau0 model_type vb = Ok L ->
  (t0 < length sq)%nat ->
  sums_to_one
    (posterior_predictive (update_posterior (with_t L t0))
       (alphas (update_posterior (with_t L t0)))).
Proof.
  intros Hexp Hinit Ht. unfold posterior_predictive.
  apply over_axis0_sums.
  exact (alphas_at_well_formed _ _ _ _ _ _ _ Hexp Hinit Ht).
Qed.


(** *** The loop of [compute_surprisal] *)

Lemma outcome_index_tables L L' :
  same_tables L L' -> t L' = t L ->
  outcome_index L' = outcome_index L.
Proof.
  unfold same_tables, outcome_index. intros H Ht. decompose [and] H.
  repeat match goal with H : _ = _ |- _ => rewrite H; clear H end.
  reflexivity.
Qed.

Lemma update_posterior_t L : t (update_posterior L) = t L.
Proof.
  unfold update_posterior.
  repeat match goal with
         | |- context [if ?b then _ else _] => destruct b
         end; reflexivity.
Qed.

Lemma update_posterior_stdout L :
  exists more, stdout (update_posterior L) = stdout L ++ more.
Proof.
  unfold update_posterior.
  repeat match goal with
         | |- context [if ?b then _ else _] => destruct b
         end; simpl; eauto.
  exists []. now rewrite app_nil_r.
Qed.

(** What a line of the table records about trial [tn] of learner [L]:
    the state computed at [tn], flattened, and minus the log of the
    predictive probability at the realized outcome index. *)
Definition row_at (L : learner) (tn : nat) (row : record) : Prop :=
  r_t row = tn /\
  r_params row = flatten (alphas_at L tn) /\
  exists ind p,
    outcome_index (with_t L tn) = Ok ind /\
    at_index (over_axis0 (alphas_at L tn)) ind = Ok p /\
    r_PS row = - np_log p.

Definition known_type (L : learner) : Prop :=
  type L = "SP"%string \/ type L = "AP"%string \/ type L = "TP"%string.

Lemma compute_step_inv acc tn acc' :
  compute_step np_log kl_dir acc tn = Ok acc' ->
  fst acc' = update_posterior (with_t (fst acc) tn) /\
  exists row, snd acc' = snd acc ++ [row] /\ row_at (fst acc) tn row.
Proof.
  unfold compute_step. intros H.
  apply bind_Ok_inv in H as (ind & Hind & H).
  apply bind_Ok_inv in H as (ps & Hps & H).
  apply bind_Ok_inv in H as (o & _ & H).
  apply bind_Ok_inv in H as (h & _ & H).
  inversion H; subst; simpl; clear H. split; [reflexivity|].
  eexists; split; [reflexivity|].
  unfold row_at; simpl. split; [reflexivity|]. split; [reflexivity|].
  unfold predictive_surprisal in Hps.
  apply bind_Ok_inv in Hps as (p & Hp & Hps). inversion Hps; subst.
  exists ind, p. repeat split; auto.
  rewrite <- Hind. symmetry. apply outcome_index_tables.
  - apply update_posterior_tables.
  - apply update_posterior_t.
Qed.

Lemma row_at_tables L L' tn row :
  same_tables L L' -> known_type L ->
  row_at L' tn row -> row_at L tn row.
Proof.
  intros Hs Hk (H1 & H2 & ind & p & H3 & H4 & H5).
  assert (Ha : alphas_at L' tn = alphas_at L tn)
    by (apply alphas_at_tables; auto).
  unfold row_at. rewrite <- Ha. repeat split; auto.
  exists ind, p. repeat split; auto.
  rewrite <- H3. symmetry. apply outcome_index_tables; [|reflexivity].
  unfold same_tables in *. decompose [and] Hs. repeat split; auto.
Qed.

Lemma compute_loop_spec n :
  forall a L0 rows0 L' rows',
  known_type L0 ->
  for_each (compute_step np_log kl_dir) (seq a n) (L0, rows0)
  = Ok (L', rows') ->
  same_tables L0 L' /\
  (exists more, stdout L' = stdout L0 ++ more) /\
  exists new, rows' = rows0 ++ new /\ length new = n /\
    forall k, (k < n)%nat ->
      exists row, nth_error new k = Some row /\ row_at L0 (a + k) row.
Proof.
  induction n as [|n IH]; intros a L0 rows0 L' rows' Hk H; simpl in H.
  - inversion H; subst. split; [apply same_tables_refl|]. split.
    + exists []. now rewrite app_nil_r.
    + exists []. rewrite app_nil_r. repeat split; auto. intros k Hlt; lia.
  - apply bind_Ok_inv in H as ([L1 rows1] & H1 & H).
    apply compute_step_inv in H1 as (HL1 & row & Hrows1 & Hrow).
    simpl in *.
    assert (Hs1 : same_tables L0 L1).
    { rewrite HL1. eapply same_tables_trans;
        [apply with_t_tables | apply update_posterior_tables]. }
    assert (Hk1 : known_type L1).
    { unfold known_type in *. destruct Hs1 as (_ & _ & _ & -> & _).
      exact Hk. }
    apply IH in H as (Hs & (more & Hout) & new & -> & Hlen & Hnew); auto.
    split; [eapply same_tables_trans; eauto|]. split.
    + destruct (update_posterior_stdout (with_t L0 a)) as (m1 & Hm1).
      rewrite <- HL1 in Hm1. simpl in Hm1.
      exists (m1 ++ more). rewrite Hout, Hm1. now rewrite app_assoc.
    + exists (row :: new). subst rows1. rewrite <- app_assoc. simpl.
      repeat split; auto.
      intros [|k] Hlt; simpl.
      * exists row. rewrite Nat.add_0_r. auto.
      * destruct (Hnew k) as (r & Hr & Hat); [lia|].
        exists r. split; auto.
        replace (a + S k)%nat with (S a + k)%nat by lia.
        eapply row_at_tables; eauto.
Qed.

(** The table [compute_surprisal] returns has one line per trial, and
    line [k] records trial [k]. *)
Lemma compute_surprisal_rows L max_T Lf rows :
  known_type L ->
  compute_surprisal np_log kl_dir L max_T = Ok (Lf, rows) ->
  same_tables L Lf /\ length rows = max_T /\
  forall k, (k < max_T)%nat ->
    exists row, nth_error rows k = Some row /\ row_at L k row.
Proof.
  unfold compute_surprisal. intros Hk H.
  apply bind_Ok_inv in H as ([L1 rows1] & Hloop & H).
  inversion H; subst; clear H. simpl.
  unfold range in Hloop. rewrite Nat.sub_0_r in Hloop.
  apply compute_loop_spec in Hloop
    as (Hs & _ & new & -> & Hlen & Hnew); [|exact Hk].
  simpl. split; [|split; [exact Hlen|]].
  - unfold same_tables in *. simpl in Hs. decompose [and] Hs.
    repeat split; assumption.
  - intros k Hlt. destruct (Hnew k Hlt) as (row & Hr & Hat).
    exists row. split; auto.
    apply (row_at_tables L (with_alphas L (alphas L) [banner_start]) k row);
      [repeat split | exact Hk | exact Hat].
Qed.


(** *** The alternation variant *)

Lemma int_of_of_bool b : int_of (of_bool b) = if b then 1%Z else 0%Z.
Proof. destruct b; reflexivity. Qed.

Lemma AP_outcome_index sq hid tau0 vb L tn ind :
  init np_exp sq hid tau0 "AP" vb = Ok L ->
  outcome_index (with_t L tn) = Ok ind ->
  (tn < length sq)%nat /\
  ind = Idx1 (if repeats sq tn then 1%Z else 0%Z).
Proof.
  intros Hinit H.
  destruct (init_fields _ _ _ _ _ _ Hinit)
    as (_ & _ & _ & Hty & _ & _ & _ & Hrep & _).
  destruct (build_repetition_spec _ _ Hrep) as [HL Hspec].
  unfold outcome_index in H. simpl in H. rewrite Hty in H. simpl in H.
  apply bind_Ok_inv in H as (r & Hr & H).
  apply get_nat_inv in Hr.
  assert (Hlt : (tn < length sq)%nat)
    by (rewrite <- HL; apply nth_error_Some; congruence).
  split; [exact Hlt|].
  rewrite (Hspec tn Hlt) in Hr. inversion Hr; subst r.
  rewrite int_of_of_bool in H. now inversion H.
Qed.

Lemma AP_alphas_at sq hid tau0 vb L tn :
  init np_exp sq hid tau0 "AP" vb = Ok L ->
  alphas_at L tn =
  if Nat.eqb tn 0 then Vec [1; 1]
  else Vec [ 1 + dot (last_n (S tn) (exp_forgetting L))
                     (first_n (S tn) (repetition L));
             1 + dot (last_n (S tn) (exp_forgetting L))
                     (one_minus (first_n (S tn) (repetition L))) ].
Proof.
  intros Hinit.
  destruct (init_fields _ _ _ _ _ _ Hinit)
    as (_ & _ & _ & Hty & _).
  rewrite alphas_at_unfold. cbv zeta. rewrite Hty. reflexivity.
Qed.

(** C3.  What [compute_surprisal] records for the alternation variant
    at a trial [t >= 1]: the state is [[repeat count, alternation
    count]] (entries 0 and 1 of [update_posterior]), and the index
    [int(repetition[t])] is 1 on a repetition, so the surprisal is
    minus the log of the alternation entry's predictive probability
    when [seq[t] == seq[t-1]] and of the repeat entry's otherwise: the
    entry opposite to the realized outcome. *)
Theorem AP_surprisal_reads_opposite_entry
    sq hid tau0 vb L max_T Lf rows tn row :
  init np_exp sq hid tau0 "AP" vb = Ok L ->
  compute_surprisal np_log kl_dir L max_T = Ok (Lf, rows) ->
  (1 <= tn)%nat -> nth_error rows tn = Some row ->
  let w := last_n (S tn) (exp_forgetting L) in
  let a_repeat := 1 + dot w (first_n (S tn) (repetition L)) in
  let a_alternate :=
    1 + dot w (one_minus (first_n (S tn) (repetition L))) in
  r_params row = [a_repeat; a_alternate] /\
  r_PS row
  = - np_log ((if repeats sq tn then a_alternate else a_repeat)
              / qsum [a_repeat; a_alternate]).
Proof.
  intros Hinit Hrun Htn Hrow w a_repeat a_alternate.
  assert (Hk : known_type L).
  { destruct (init_fields _ _ _ _ _ _ Hinit) as (_ & _ & _ & Hty & _).
    right; left; exact Hty. }
  destruct (compute_surprisal_rows _ _ _ _ Hk Hrun) as (_ & Hlen & Hrows).
  assert (Hlt : (tn < max_T)%nat)
    by (rewrite <- Hlen; apply nth_error_Some; congruence).
  destruct (Hrows tn Hlt) as (row' & Hrow' & _ & Hparams & ind & p
                              & Hind & Hp & HPS).
  rewrite Hrow in Hrow'. inversion Hrow'; subst row'; clear Hrow'.
  rewrite (AP_alphas_at _ _ _ _ _ tn Hinit) in Hparams, Hp.
  destruct (Nat.eqb_spec tn 0) as [->|_]; [lia|].
  fold w in Hparams, Hp. fold a_repeat in Hparams, Hp.
  fold a_alternate in Hparams, Hp.
  split; [exact Hparams|].
  destruct (AP_outcome_index _ _ _ _ _ _ _ Hinit Hind) as [_ ->].
  rewrite HPS. f_equal. f_equal.
  change (over_axis0 (Vec [a_repeat; a_alternate]))
    with (Vec [a_repeat / qsum [a_repeat; a_alternate];
               a_alternate / qsum [a_repeat; a_alternate]]) in Hp.
  unfold at_index in Hp.
  destruct (repeats sq tn).
  - apply (get_nat_inv _ _ 1%nat) in Hp. cbn [nth_error] in Hp.
    now injection Hp as <-.
  - apply (get_nat_inv _ _ 0%nat) in Hp. cbn [nth_error] in Hp.
    now injection Hp as <-.
Qed.


Lemma AP_compute_step_total sq hid tau0 vb L acc tn :
  init np_exp sq hid tau0 "AP" vb = Ok L ->
  length hid = length sq -> (tn < length sq)%nat ->
  same_tables L (fst acc) ->
  exists acc', compute_step np_log kl_dir acc tn = Ok acc' /\
               same_tables L (fst acc').
Proof.
  intros Hinit Hhid Htn Hs.
  destruct (init_fields _ _ _ _ _ _ Hinit)
    as (Hsq & Hh & _ & Hty & _ & _ & _ & Hrep & _).
  destruct (build_repetition_spec _ _ Hrep) as [HL Hspec].
  set (L1 := update_posterior (with_t (fst acc) tn)).
  assert (Hs1 : same_tables L L1).
  { eapply same_tables_trans; [exact Hs|].
    eapply same_tables_trans;
      [apply with_t_tables | apply update_posterior_tables]. }
  assert (Hk : known_type L) by (right; left; exact Hty).
  assert (Ha : alphas L1 = alphas_at L tn).
  { change (alphas L1) with (alphas_at (fst acc) tn).
    apply alphas_at_tables; auto. }
  assert (Hind : outcome_index L1
                 = Ok (Idx1 (if repeats sq tn then 1%Z else 0%Z))).
  { unfold outcome_index.
    destruct Hs1 as (_ & _ & _ & -> & _ & _ & -> & _).
    rewrite Hty. simpl String.eqb. cbv iota.
    unfold L1. rewrite update_posterior_t. simpl t.
    rewrite (get_nat _ _ _ _ (Hspec tn Htn)). simpl.
    now rewrite int_of_of_bool. }
  assert (Hseq : exists o, get "sequence" (sequence L1) (Z.of_nat tn) = Ok o).
  { destruct Hs1 as (-> & _). rewrite Hsq. apply get_total. exact Htn. }
  assert (Hhd : exists h, get "hidden" (hidden L1) (Z.of_nat tn) = Ok h).
  { destruct Hs1 as (_ & -> & _). rewrite Hh. apply get_total. lia. }
  destruct Hseq as (o & Ho). destruct Hhd as (h & Hh').
  assert (Hps : exists ps,
            predictive_surprisal np_log L1 (alphas L1)
              (Idx1 (if repeats sq tn then 1%Z else 0%Z)) = Ok ps).
  { unfold predictive_surprisal, posterior_predictive. rewrite Ha.
    rewrite (AP_alphas_at _ _ _ _ _ tn Hinit).
    destruct (Nat.eqb tn 0), (repeats sq tn); simpl; eauto. }
  destruct Hps as (ps & Hps).
  unfold compute_step. fold L1. rewrite Hind. cbn [bind].
  rewrite Hps. cbn [bind]. rewrite Ho. cbn [bind]. rewrite Hh'. cbn [bind].
  eexists; split; [reflexivity|]. exact Hs1.
Qed.

(** C6.  For the alternation variant [update_posterior] at [t = 0]
    raises nothing: it leaves the prior [[1, 1]] and prints its warning;
    and [compute_surprisal] runs on to the end, returning one line per
    trial, the first with the prior as its parameters. *)
Theorem AP_first_update_warns_and_continues sq hid tau0 vb L max_T :
  init np_exp sq hid tau0 "AP" vb = Ok L ->
  length hid = length sq -> (1 <= max_T <= length sq)%nat ->
  (alphas (update_posterior (with_t L 0)) = Vec [1; 1] /\
   stdout (update_posterior (with_t L 0)) = stdout L ++ [warning]) /\
  exists Lf rows,
    compute_surprisal np_log kl_dir L max_T = Ok (Lf, rows) /\
    length rows = max_T /\ In warning (stdout Lf) /\
    exists row0, nth_error rows 0 = Some row0 /\ r_params row0 = [1; 1].
Proof.
  intros Hinit Hhid HT.
  destruct (init_fields _ _ _ _ _ _ Hinit) as (_ & _ & _ & Hty & _).
  assert (Hk : known_type L) by (right; left; exact Hty).
  split.
  - unfold update_posterior, with_t. simpl. rewrite Hty. simpl. auto.
  - set (Lb := with_alphas L (alphas L) [banner_start]).
    assert (Hsb : same_tables L Lb) by (repeat split).
    destruct (for_each_total (compute_step np_log kl_dir)
                (fun acc => same_tables L (fst acc))
                (range 0 max_T) (Lb, [])) as ([L' rows] & Hloop & _).
    { exact Hsb. }
    { intros acc tn Hin Hs. apply mem_range in Hin.
      eapply AP_compute_step_total; eauto. lia. }
    assert (Hrun : compute_surprisal np_log kl_dir L max_T
                   = Ok (with_alphas L' (alphas L') [banner_done], rows)).
    { unfold compute_surprisal. fold Lb. rewrite Hloop. reflexivity. }
    exists (with_alphas L' (alphas L') [banner_done]), rows.
    split; [exact Hrun|].
    destruct (compute_surprisal_rows _ _ _ _ Hk Hrun) as (_ & Hlen & Hrows).
    split; [exact Hlen|]. split.
    + unfold range in Hloop. rewrite Nat.sub_0_r in Hloop.
      destruct max_T as [|m]; [lia|]. simpl in Hloop.
      apply bind_Ok_inv in Hloop as ([L1 rows1] & H1 & Hrest).
      apply compute_step_inv in H1 as (HL1 & _). simpl in HL1.
      apply compute_loop_spec in Hrest as (_ & (more & Hout) & _).
      * simpl. rewrite Hout, HL1.
        unfold update_posterior, with_t, Lb. simpl. rewrite Hty. simpl.
        rewrite !in_app_iff. simpl. tauto.
      * unfold known_type. rewrite HL1.
        destruct (update_posterior_tables (with_t Lb 0))
          as (_ & _ & _ & -> & _).
        simpl. right; left; exact Hty.
    + destruct (Hrows 0%nat) as (row0 & Hr0 & _ & Hp & _); [lia|].
      exists row0. split; [exact Hr0|].
      rewrite Hp, (AP_alphas_at _ _ _ _ _ 0%nat Hinit). reflexivity.
Qed.


End Scoring.

(** *** The learner on concrete sequences *)

Lemma exp_standin_0 : (exp_standin 0 == 1)%Q.
Proof. vm_compute. reflexivity. Qed.

Lemma exp_standin_pos (x : Q) : (0 < exp_standin x)%Q.
Proof.
  unfold exp_standin. destruct (Qle_bool 0 x) eqn:E.
  - apply Qle_bool_iff in E.
    assert (0 <= x * x)%Q by (apply Qmult_le_0_compat; assumption).
    lra.
  - assert (Hx : (x < 0)%Q).
    { apply Qnot_le_lt. intros H. apply Qle_bool_iff in H. congruence. }
    assert (0 <= x * x)%Q by nra.
    apply Qinv_lt_0_compat. lra.
Qed.

(** The alternation learner on [0, 0, 0, 1, 2]: trial 2 repeats trial
    1; the state is [[3, 2]] (two repetitions; trials 0, 3 and 4 are not
    repetitions, of which trial 0 lies in [0..2]). *)
Definition ap_sequence : list Z := [0; 0; 0; 1; 2]%Z.
Definition ap_hidden : list Q := [0; 0; 0; 1; 1]%Q.

Lemma AP_surprisal_reads_opposite_entry_witness :
  exists L Lf rows row,
    CatDir.init exp_standin ap_sequence ap_hidden 0 "AP" false = Py.Ok L /\
    CatDir.compute_surprisal log_standin kl_standin L 5 = Py.Ok (Lf, rows) /\
    nth_error rows 2 = Some row /\
    repeats ap_sequence 2 = true /\
    let w := CatDir.last_n 3 (CatDir.exp_forgetting L) in
    let a_repeat :=
      (1 + CatDir.dot w (CatDir.first_n 3 (CatDir.repetition L)))%Q in
    let a_alternate :=
      (1 + CatDir.dot w
             (CatDir.one_minus (CatDir.first_n 3 (CatDir.repetition L))))%Q in
    CatDir.r_params row = [a_repeat; a_alternate] /\
    CatDir.r_PS row
    = (- log_standin
         ((if repeats ap_sequence 2 then a_alternate else a_repeat)
          / CatDir.qsum [a_repeat; a_alternate]))%Q.
Proof.
  destruct (CatDir.init exp_standin ap_sequence ap_hidden 0 "AP" false)
    as [L|e|] eqn:EL;
    [|vm_compute in EL; discriminate EL|vm_compute in EL; discriminate EL].
  destruct (CatDir.compute_surprisal log_standin kl_standin L 5)
    as [[Lf rows]|e|] eqn:ER.
  - destruct (nth_error rows 2) as [row|] eqn:Erow.
    + exists L, Lf, rows, row.
      split; [reflexivity|]. split; [exact ER|]. split; [exact Erow|].
      split; [reflexivity|].
      apply (AP_surprisal_reads_opposite_entry exp_standin log_standin
               kl_standin ap_sequence ap_hidden 0 false L 5 Lf rows 2 row
               EL ER); [lia|exact Erow].
    + exfalso. vm_compute in EL. injection EL as <-.
      vm_compute in ER. injection ER as <- <-. discriminate Erow.
  - exfalso. vm_compute in EL. injection EL as <-.
    vm_compute in ER. discriminate ER.
  - exfalso. vm_compute in EL. injection EL as <-.
    vm_compute in ER. discriminate ER.
Defined.

(** On that input the recorded surprisal is minus the log of 2/5, the
    alternation entry's predictive probability; the repeat entry's is
    3/5. *)
Example AP_failing_input_evaluation :
  exists L Lf rows row,
    CatDir.init exp_standin ap_sequence ap_hidden 0 "AP" false = Py.Ok L /\
    CatDir.compute_surprisal log_standin kl_standin L 5 = Py.Ok (Lf, rows) /\
    nth_error rows 2 = Some row /\
    nth_error ap_sequence 2 = nth_error ap_sequence 1 /\
    Forall2 Qeq (CatDir.r_params row) [3; 2]%Q /\
    (CatDir.r_PS row == - log_standin (2 # 5))%Q /\
    ~ (CatDir.r_PS row == - log_standin (3 # 5))%Q.
Proof.
  do 4 eexists.
  split; [vm_compute; reflexivity|].
  split; [vm_compute; reflexivity|].
  split; [reflexivity|].
  split; [reflexivity|].
  split; [repeat constructor; vm_compute; reflexivity|].
  split; [vm_compute; reflexivity|].
  intros H. vm_compute in H. discriminate H.
Qed.

(** The alternation learner on [0, 1, 2]. *)
Definition short_sequence : list Z := [0; 1; 2]%Z.
Definition short_hidden : list Q := [0; 0; 1]%Q.

Lemma AP_first_update_warns_and_continues_witness :
  exists L,
    CatDir.init exp_standin short_sequence short_hidden 0 "AP" false
    = Py.Ok L /\
    (CatDir.alphas (CatDir.update_posterior (CatDir.with_t L 0))
     = CatDir.Vec [1; 1]%Q /\
     CatDir.stdout (CatDir.update_posterior (CatDir.with_t L 0))
     = CatDir.stdout L ++ [CatDir.warning]) /\
    exists Lf rows,
      CatDir.compute_surprisal log_standin kl_standin L 3
      = Py.Ok (Lf, rows) /\
      length rows = 3%nat /\ In CatDir.warning (CatDir.stdout Lf) /\
      exists row0, nth_error rows 0 = Some row0 /\
                   CatDir.r_params row0 = [1; 1]%Q.
Proof.
  destruct (CatDir.init exp_standin short_sequence short_hidden 0 "AP" false)
    as [L|e|] eqn:EL;
    [|vm_compute in EL; discriminate EL|vm_compute in EL; discriminate EL].
  exists L. split; [reflexivity|].
  apply (AP_first_update_warns_and_continues exp_standin log_standin
           kl_standin short_sequence short_hidden 0 false L 3 EL).
  - reflexivity.
  - simpl. lia.
Defined.

(** With [tau = 0] on [0, 1, 2]: the claim's plain count fails for the
    alternation variant at the first trial, where the state is the
    prior [[1, 1]] and one plus the count is [[1, 2]]. *)
Lemma AP_first_state_is_not_plain_count :
  exists L,
    CatDir.init exp_standin short_sequence short_hidden 0 "AP" false
    = Py.Ok L /\
    CatDir.alphas (CatDir.update_posterior (CatDir.with_t L 0))
    = CatDir.Vec [1; 1]%Q /\
    plain_count "AP" short_sequence 0 = CatDir.Vec [1; 2]%Q /\
    ~ alphas_eq (CatDir.alphas (CatDir.update_posterior (CatDir.with_t L 0)))
        (plain_count "AP" short_sequence 0).
Proof.
  eexists. split; [vm_compute; reflexivity|].
  split; [vm_compute; reflexivity|].
  split; [vm_compute; reflexivity|].
  vm_compute. intros H.
  inversion H as [|? ? ? ? _ H1]; subst.
  inversion H1 as [|? ? ? ? H2 _]; subst.
  discriminate H2.
Qed.

Lemma dirichlet_state_is_plain_count_witness :
  exists L,
    CatDir.init exp_standin short_sequence short_hidden 0 "TP" false
    = Py.Ok L /\
    alphas_eq (CatDir.alphas (CatDir.update_posterior (CatDir.with_t L 2)))
      (plain_count "TP" short_sequence 2).
Proof.
  destruct (CatDir.init exp_standin short_sequence short_hidden 0 "TP" false)
    as [L|e|] eqn:EL;
    [|vm_compute in EL; discriminate EL|vm_compute in EL; discriminate EL].
  exists L. split; [reflexivity|].
  apply (dirichlet_state_is_plain_count exp_standin short_sequence
           short_hidden "TP" false L 2 exp_standin_0 EL).
  - repeat constructor; lia.
  - simpl. lia.
Defined.

Lemma predictive_sums_to_one_witness :
  exists L,
    CatDir.init exp_standin short_sequence short_hidden (1 # 10) "TP" false
    = Py.Ok L /\
    sums_to_one
      (CatDir.posterior_predictive
         (CatDir.update_posterior (CatDir.with_t L 2))
         (CatDir.alphas (CatDir.update_posterior (CatDir.with_t L 2)))).
Proof.
  destruct (CatDir.init exp_standin short_sequence short_hidden (1 # 10)
              "TP" false)
    as [L|e|] eqn:EL;
    [|vm_compute in EL; discriminate EL|vm_compute in EL; discriminate EL].
  exists L. split; [reflexivity|].
  apply (predictive_sums_to_one exp_standin short_sequence short_hidden
           (1 # 10) "TP" false L 2 exp_standin_pos EL).
  simpl. lia.
Defined.

(** ** The grid filter *)

Section GridFilter.
Import Py GRW.
Local Open Scope float_scope.

Variable norm_pdf : float -> float -> float -> float.
Variable np_exp : float -> float.
Variable binom_pmf_1_1 : float -> float.
Variable np_log : float -> float.
Variable mutual_info_score : list float -> list float -> float.
Variable np_sum : list float -> float.

(** Any order of additions sums zeros to zero. *)
Hypothesis np_sum_zeros : forall n, np_sum (repeat 0 n) = 0.

Lemma grid_length : length grid = 70%nat.
Proof. vm_compute. reflexivity. Qed.

Lemma i_ax_head : i_ax = repeat (-5) 70 ++ skipn 70 i_ax.
Proof. vm_compute. reflexivity. Qed.

Lemma lookup_length : length (combine i_ax j_ax) = 4900%nat.
Proof. vm_compute. reflexivity. Qed.

(** The Gaussian table over the grid written into [update_posterior]. *)
Definition gaussian_over (g : list float) (sg : float) : table2 :=
  map (fun gi => map (fun gj => norm_pdf gi gj sg) g) g.

Lemma normal_lookup_70 sg :
  chunks 70 70
    (map (fun p : float * float => norm_pdf (fst p) (snd p) sg)
         (combine i_ax j_ax))
  = gaussian_over grid sg.
Proof. vm_compute. reflexivity. Qed.

(** C5.  The lookups of [update_posterior] are built on the grid
    [linspace(-5, 5, 70)] written into the method, not on the
    configured [s_space]: with [s_res = 70] the Gaussian table is
    [N(g_i; g_j, sigma)] over that fixed grid, with any other [s_res]
    the reshape raises, and the emission lookup read at a grid index
    [i < 70] is the logistic of the first grid point, -5, for every
    [i]. *)
Theorem lookups_ignore_configured_grid (L : learner) :
  (s_res L = 70%nat ->
   normal_lookup norm_pdf L = Ok (gaussian_over grid (sigma L))) /\
  (s_res L <> 70%nat ->
   forall tn type,
     update_posterior norm_pdf np_exp binom_pmf_1_1 np_sum L tn type
     = Raise (ValueError "cannot reshape array")) /\
  (forall i, (i < 70)%nat ->
     get "bernoulli_lookup" (bernoulli_lookup np_exp binom_pmf_1_1)
         (Z.of_nat i)
     = Ok (binom_pmf_1_1 (logistic np_exp (-5)))).
Proof.
  split; [|split].
  - intros H. unfold normal_lookup, reshape. rewrite H.
    rewrite length_map, lookup_length. simpl Nat.eqb. cbv iota.
    now rewrite normal_lookup_70.
  - intros H tn type. unfold update_posterior, normal_lookup, reshape.
    rewrite length_map, lookup_length.
    destruct (Nat.eqb_spec 4900 (s_res L * s_res L)) as [E|E];
      [|reflexivity].
    exfalso. apply H. nia.
  - intros i Hi. apply get_nat. unfold bernoulli_lookup.
    rewrite nth_error_map, i_ax_head.
    rewrite nth_error_app1 by (rewrite repeat_length; exact Hi).
    rewrite nth_error_repeat by exact Hi. reflexivity.
Qed.

(** *** The naive marginal *)

Lemma zeros3_get n sel Pn :
  get "P_naive" (zeros3 2 n n) sel = Ok Pn -> Pn = zeros2 n n.
Proof.
  intros H. apply get_Ok_inv in H as (k & _ & Hk).
  apply nth_error_In in Hk. unfold zeros3 in Hk.
  now apply repeat_spec in Hk.
Qed.

Lemma sum_rows_zeros n :
  sum_rows np_sum (zeros2 n n) = repeat 0 n.
Proof.
  unfold sum_rows, zeros2, zeros.
  assert (H : forall r c, map np_sum (repeat (repeat 0 c) r) = repeat 0 r).
  { induction r as [|r IH]; intros c; simpl; [reflexivity|].
    now rewrite np_sum_zeros, IH. }
  apply H.
Qed.

Lemma divide_zeros n : divide (repeat 0 n) 0 = repeat nan n.
Proof.
  unfold divide. induction n as [|n IH]; simpl; [reflexivity|].
  now rewrite IH.
Qed.

(** An update at a trial other than 0 leaves [P_naive] alone; from the
    zero table it yields a naive marginal of [0/0] at every grid
    point. *)
Lemma update_posterior_naive L tn type L' lag :
  tn <> 0%nat ->
  P_naive L = zeros3 2 (s_res L) (s_res L) ->
  update_posterior norm_pdf np_exp binom_pmf_1_1 np_sum L tn type
  = Ok (L', lag) ->
  P_naive L' = P_naive L /\ s_res L' = s_res L /\
  lag = posterior L /\
  posterior_naive L' = repeat nan (s_res L).
Proof.
  intros Htn Hz H. unfold update_posterior in H.
  apply bind_Ok_inv in H as (normal & _ & H).
  apply bind_Ok_inv in H as (slice & _ & H).
  apply bind_Ok_inv in H as (Pt & _ & H).
  apply bind_Ok_inv in H as (sel & _ & H).
  apply bind_Ok_inv in H as (P_ij & _ & H).
  apply bind_Ok_inv in H as (P_ij_naive & Hn & H).
  destruct (Nat.eqb_spec tn 0) as [E|_]; [contradiction|].
  simpl in Hn. rewrite Hz in Hn. apply zeros3_get in Hn. subst P_ij_naive.
  inversion H; subst; simpl. repeat split.
  rewrite sum_rows_zeros, np_sum_zeros. apply divide_zeros.
Qed.

Lemma init_P_naive sq sg s_min s_max n L :
  init sq sg s_min s_max n = Ok L ->
  P_naive L = zeros3 2 (s_res L) (s_res L).
Proof.
  unfold init. intros H. apply bind_Ok_inv in H as (rep & _ & H).
  now inversion H.
Qed.

(** C2.  In the loop of [compute_surprisal] the naive marginal is never
    rebuilt from the joint table: [P_naive] is written at [t = 0] only,
    and the loop starts at 1, so the table stays zero, the slice taken
    from it is the one of the realized category, and the marginal is
    [0/0] at every grid point.  The corrected surprisal recorded at each
    trial is the mutual information between the previous posterior and
    that all-NaN vector. *)
Theorem naive_marginal_never_rebuilt sq sg s_min s_max n type L Lf rows :
  init sq sg s_min s_max n = Ok L ->
  compute_surprisal norm_pdf np_exp binom_pmf_1_1 np_log
    mutual_info_score np_sum L type = Ok (Lf, rows) ->
  P_naive Lf = zeros3 2 n n /\
  posterior_naive Lf = repeat nan n /\
  Forall (fun row => exists lag,
            r_CS row = mutual_info_score lag (repeat nan n)) rows.
Proof.
  intros Hinit Hrun.
  pose proof (init_P_naive _ _ _ _ _ _ Hinit) as Hz.
  assert (Hn : s_res L = n).
  { unfold init in Hinit. apply bind_Ok_inv in Hinit as (rep & _ & H).
    now inversion H. }
  unfold compute_surprisal in Hrun.
  apply bind_Ok_inv in Hrun as ([L1 lag1] & H1 & Hloop).
  apply update_posterior_naive in H1 as (HP1 & Hs1 & _ & Hnaive1);
    [|discriminate|exact Hz].
  simpl in Hloop.
  assert (HI : P_naive L1 = zeros3 2 n n /\ s_res L1 = n /\
               posterior_naive L1 = repeat nan n)
    by (rewrite HP1, Hs1, Hnaive1, Hz, Hn; auto).
  set (I := fun acc : learner * list record =>
              (P_naive (fst acc) = zeros3 2 n n /\ s_res (fst acc) = n /\
               posterior_naive (fst acc) = repeat nan n) /\
              Forall (fun row => exists lag,
                        r_CS row = mutual_info_score lag (repeat nan n))
                     (snd acc)).
  assert (Hfin : I (Lf, rows)); [|destruct Hfin as [(? & ? & ?) ?]; auto].
  revert Hloop. apply for_each_invariant; unfold I.
  - split; [exact HI|constructor].
  - intros [La ra] tn [Lb rb] Hin [(HPa & Hsa & _) Hrows] Hstep.
    simpl in *. apply mem_range in Hin.
    unfold compute_step in Hstep. cbn [fst snd] in Hstep.
    apply bind_Ok_inv in Hstep as ([L2 lag] & Hup & Hstep).
    apply update_posterior_naive in Hup as (HP2 & Hs2 & _ & Hnaive2);
      [|lia|rewrite Hsa; exact HPa].
    cbn [fst snd] in Hstep.
    apply bind_Ok_inv in Hstep as (o & _ & Hstep).
    apply bind_Ok_inv in Hstep as (h & _ & Hstep).
    injection Hstep as <- <-. simpl.
    rewrite HP2, Hs2, Hnaive2, Hsa. split; [auto|].
    apply Forall_app. split; [exact Hrows|].
    constructor; [|constructor]. simpl.
    exists lag. unfold corrected_surprisal. now rewrite Hnaive2, Hsa.
Qed.


End GridFilter.

(** *** The grid filter on a concrete sequence

    Float stand-ins for the library functions, and left-to-right
    summation for [np.sum]. *)

Definition fsum (l : list float) : float :=
  fold_left PrimFloat.add l 0%float.

Definition norm_pdf_standin (x m s : float) : float :=
  (1 / (1 + ((x - m) / s) * ((x - m) / s)))%float.

Definition fexp_standin (x : float) : float :=
  if PrimFloat.ltb x 0 then (1 / (1 - x + x * x / 2))%float
  else (1 + x + x * x / 2)%float.

Definition pmf_standin (p : float) : float := p.

Definition flog_standin (x : float) : float :=
  (2 * (x - 1) / (x + 1))%float.

Definition mi_standin (a b : list float) : float :=
  fsum (map (fun p : float * float => (fst p * snd p)%float) (combine a b)).

Lemma fsum_zeros n : fsum (repeat 0%float n) = 0%float.
Proof.
  unfold fsum. induction n as [|n IH]; simpl; [reflexivity|].
  exact IH.
Qed.

Definition grw_sequence : list (Z * Z) :=
  [(0, 0); (0, 1); (0, 0); (0, 1)]%Z.

Lemma naive_marginal_never_rebuilt_witness :
  exists L Lf rows,
    GRW.init grw_sequence 2.5 (-5) 5 70 = Py.Ok L /\
    GRW.compute_surprisal norm_pdf_standin fexp_standin pmf_standin
      flog_standin mi_standin fsum L "SP" = Py.Ok (Lf, rows) /\
    GRW.P_naive Lf = GRW.zeros3 2 70 70 /\
    GRW.posterior_naive Lf = repeat nan 70 /\
    Forall (fun row => exists lag,
              GRW.r_CS row = mi_standin lag (repeat nan 70)) rows.
Proof.
  destruct (GRW.init grw_sequence 2.5 (-5) 5 70) as [L|e|] eqn:EL;
    [|vm_compute in EL; discriminate EL|vm_compute in EL; discriminate EL].
  destruct (GRW.compute_surprisal norm_pdf_standin fexp_standin pmf_standin
              flog_standin mi_standin fsum L "SP") as [[Lf rows]|e|] eqn:ER.
  - exists L, Lf, rows. split; [reflexivity|]. split; [exact ER|].
    exact (naive_marginal_never_rebuilt norm_pdf_standin fexp_standin
             pmf_standin flog_standin mi_standin fsum fsum_zeros
             grw_sequence 2.5 (-5) 5 70 "SP" L Lf rows EL ER).
  - exfalso. vm_compute in EL. injection EL as <-.
    vm_compute in ER. discriminate ER.
  - exfalso. vm_compute in EL. injection EL as <-.
    vm_compute in ER. discriminate ER.
Defined.

(** With the default configuration the second grid point is about
    -4.855, yet the emission read at grid index 1 is the logistic of
    -5. *)
Example default_config_emission_at_index_1 :
  exists L,
    GRW.init grw_sequence 2.5 (-5) 5 70 = Py.Ok L /\
    nth_error (GRW.s_space L) 1 = Some (-4.8550724637681162)%float /\
    Py.get "bernoulli_lookup" (GRW.bernoulli_lookup fexp_standin pmf_standin)
      1%Z
    = Py.Ok (pmf_standin (GRW.logistic fexp_standin (-5))) /\
    PrimFloat.eqb (GRW.logistic fexp_standin (-5))
      (GRW.logistic fexp_standin (-4.8550724637681162)) = false.
Proof.
  eexists. split; [vm_compute; reflexivity|].
  split; [vm_compute; reflexivity|].
  split; [vm_compute; reflexivity|].
  vm_compute. reflexivity.
Qed.
